(** * PHIVOLCS earthquake API: a shallow embedding of [src/index.ts]

    Definitions, in the order of the source file:

    - [JsString]  the string built-ins the scraper calls ([trim], [split],
                  [replace(/\s+/g, ' ')], [toLowerCase], [includes]);
    - [JsNumber]  JavaScript numbers and [parseFloat];
    - [Dom]       the part of the cheerio API used on the parsed page;
    - [Phivolcs]  the program itself: [parseMagnitude], [isCacheValid],
                  [fetchEarthquakes], [filterByMagnitude], [filterByLocation],
                  [parseCoordinate], the [count] path parameter and the
                  bodies of the route handlers;
    - [Spec]      the notions the specification uses, in its own words;
    - [Fixture]   a few pages and records.

    Then the proofs: [JsStringFacts], [Binary64Facts] (rounding to double
    precision), [JsNumberFacts], [DomFacts], [ScrapeFacts] (extraction),
    [CacheFacts] (the cache and overlapping calls), [QueryFacts] (the two
    filters), [TopFacts] (top N), [ParseFacts] (the parse helpers) and
    [StatsFacts] (statistics); further [CacheRuns] (the cache over many
    calls), [RecordShape] (what extracted fields look like), [HandlerFacts]
    and [FilterFacts] (the routes) and [RankingFacts] (top N, most recent
    and strongest together).

    Modelling conventions.

    - A string is the list of its code units.  Code units are [ascii], read as
      the code points 0..255 (Latin-1); code units above 255 are outside the
      model.
    - A number is [NaN], an infinity, or a finite double carried as the
      rational it denotes.  [+], [/] and [parseFloat] round to the nearest
      double, ties to even, with overflow to an infinity and underflow to
      zero, by the binary64 operations of [SpecFloat].  Comparisons are exact.
      The sign of zero is not modelled.
    - [Date.now()] is an integer number of milliseconds, passed in explicitly.
    - The page is taken as [cheerio.load] parses it; the HTML parser itself is
      not modelled.
    - [earthquakeCache], the module-level variable, is threaded as explicit
      state.  An [async] call is split at its single [await] into the part that
      runs before the request is issued and the part that runs when the
      response arrives. *)

From Stdlib Require Import Ascii String.
From Stdlib Require Import List Bool Arith ZArith QArith Lia Lqa.
From Stdlib Require Import Permutation Sorted.
From Stdlib Require Floats.SpecFloat.
Import ListNotations.

Set Implicit Arguments.

(* ================================================================= *)
(** ** Strings *)

Module JsString.

Definition str := list ascii.

Definition lit (s : string) : str := list_ascii_of_string s.

Definition code (c : ascii) : N := N_of_ascii c.

(** WhiteSpace and LineTerminator code points below 256: TAB, LF, VT, FF, CR,
    SP and NBSP.  [String.prototype.trim] and the regular expression class
    [\s] use the same set. *)
Definition is_space (c : ascii) : bool :=
  let n := code c in
  ((9 <=? n) && (n <=? 13) || (n =? 32) || (n =? 160))%N.

Fixpoint trimStart (s : str) : str :=
  match s with
  | [] => []
  | c :: s' => if is_space c then trimStart s' else s
  end.

Definition trimEnd (s : str) : str := rev (trimStart (rev s)).

Definition trim (s : str) : str := trimEnd (trimStart s).

Definition ascii_eqb (a b : ascii) : bool := (code a =? code b)%N.

Fixpoint startsWith (p s : str) : bool :=
  match p, s with
  | [], _ => true
  | _ :: _, [] => false
  | a :: p', b :: s' => ascii_eqb a b && startsWith p' s'
  end.

(** [s.includes(p)]: [p] occurs in [s] as a contiguous block. *)
Fixpoint includes (s p : str) : bool :=
  startsWith p s ||
  match s with
  | [] => false
  | _ :: s' => includes s' p
  end.

(** [s.split(sep)] for a non-empty separator.  [skip] counts the code units
    of a separator occurrence still to be passed over, [cur] is the current
    piece in reverse. *)
Fixpoint split_go (sep : str) (skip : nat) (s : str) (cur : str) : list str :=
  match s with
  | [] => [rev cur]
  | c :: s' =>
      match skip with
      | S k => split_go sep k s' cur
      | O =>
          if startsWith sep s
          then rev cur :: split_go sep (pred (length sep)) s' []
          else split_go sep 0 s' (c :: cur)
      end
  end.

Definition split (s sep : str) : list str := split_go sep 0 s [].

(** [s.replace(/\s+/g, ' ')]: every maximal run of white space becomes one
    space.  [in_run] tells that the previous code unit was white space. *)
Fixpoint collapse_go (in_run : bool) (s : str) : str :=
  match s with
  | [] => []
  | c :: s' =>
      if is_space c
      then (if in_run then collapse_go true s' else " "%char :: collapse_go true s')
      else c :: collapse_go false s'
  end.

Definition collapse_spaces (s : str) : str := collapse_go false s.

(** [toLowerCase] on code points below 256: A-Z, and the Latin-1 capitals
    U+00C0..U+00DE except the multiplication sign U+00D7, move up by 32. *)
Definition lower_char (c : ascii) : ascii :=
  let n := code c in
  if ((65 <=? n) && (n <=? 90) ||
      (192 <=? n) && (n <=? 222) && negb (n =? 215))%N
  then ascii_of_N (n + 32)
  else c.

Definition toLowerCase (s : str) : str := map lower_char s.

(** [s] consists of white space only. *)
Definition blank (s : str) : bool := forallb is_space s.

(** Truthiness of a string: non-empty. *)
Definition truthy (s : str) : bool :=
  match s with [] => false | _ :: _ => true end.

End JsString.

(* ================================================================= *)
(** ** Numbers *)

Module JsNumber.
Import JsString.

Inductive number : Type :=
| NaN
| NegInfinity
| Finite (q : Q)
| PosInfinity.

Definition isNaN (x : number) : bool :=
  match x with NaN => true | _ => false end.

Definition of_nat (n : nat) : number := Finite (inject_Z (Z.of_nat n)).

Definition Qltb (a b : Q) : bool := negb (Qle_bool b a).

(** [x < y] and [x <= y]; every comparison with [NaN] is false. *)
Definition ltb (x y : number) : bool :=
  match x, y with
  | NaN, _ | _, NaN => false
  | _, NegInfinity => false
  | NegInfinity, _ => true
  | PosInfinity, _ => false
  | Finite _, PosInfinity => true
  | Finite a, Finite b => Qltb a b
  end.

Definition leb (x y : number) : bool :=
  match x, y with
  | NaN, _ | _, NaN => false
  | NegInfinity, _ => true
  | _, PosInfinity => true
  | _, NegInfinity => false
  | PosInfinity, _ => false
  | Finite a, Finite b => Qle_bool a b
  end.

Definition gtb (x y : number) : bool := ltb y x.
Definition geb (x y : number) : bool := leb y x.

Definition neg (x : number) : number :=
  match x with
  | NaN => NaN
  | NegInfinity => PosInfinity
  | PosInfinity => NegInfinity
  | Finite a => Finite (- a)
  end.

(** *** Rounding

    [binary64 q] is the double nearest to the rational [q], ties to even:
    the quotient of numerator by denominator in the binary64 format of the
    standard library's specification of IEEE 754 ([prec = 53],
    [emax = 1024]).  It is an infinity beyond the largest double and zero
    below half the least subnormal.  A rational that is a double is
    returned unchanged in value. *)
Definition of_binary64 (f : SpecFloat.spec_float) : number :=
  match f with
  | SpecFloat.S754_zero _ => Finite 0
  | SpecFloat.S754_infinity s => if s then NegInfinity else PosInfinity
  | SpecFloat.S754_nan => NaN
  | SpecFloat.S754_finite s m e =>
      let v := match e with
               | Zneg k => Zpos m # (2 ^ k)
               | _ => inject_Z (Zpos m * 2 ^ e)
               end in
      Finite (Qred (if s then - v else v))
  end.

Definition binary64 (q : Q) : number :=
  let r := Qred q in
  let quotient (negative : bool) (n : positive) :=
    SpecFloat.SFdiv 53 1024
      (SpecFloat.S754_finite negative n 0)
      (SpecFloat.S754_finite false (Qden r) 0) in
  match Qnum r with
  | Z0 => Finite 0
  | Zpos n => of_binary64 (quotient false n)
  | Zneg n => of_binary64 (quotient true n)
  end.

(** [x + y]. *)
Definition add (x y : number) : number :=
  match x, y with
  | NaN, _ | _, NaN => NaN
  | PosInfinity, NegInfinity | NegInfinity, PosInfinity => NaN
  | PosInfinity, _ | _, PosInfinity => PosInfinity
  | NegInfinity, _ | _, NegInfinity => NegInfinity
  | Finite a, Finite b => binary64 (a + b)
  end.

(** [x - y], as the sort comparator uses it.  [sort] looks at the sign of
    the difference only, and the difference is kept exact here: rounding
    the difference of two doubles keeps its sign, and gives zero only for
    equal operands, every double being a multiple of the least subnormal. *)
Definition sub (x y : number) : number :=
  match x, y with
  | NaN, _ | _, NaN => NaN
  | PosInfinity, PosInfinity | NegInfinity, NegInfinity => NaN
  | PosInfinity, _ | _, NegInfinity => PosInfinity
  | NegInfinity, _ | _, PosInfinity => NegInfinity
  | Finite a, Finite b => Finite (a + - b)
  end.

(** [x / y]; a zero divisor is taken as [+0]. *)
Definition div (x y : number) : number :=
  match x, y with
  | NaN, _ | _, NaN => NaN
  | Finite a, Finite b =>
      if Qeq_bool b 0
      then (if Qeq_bool a 0 then NaN
            else if Qltb 0 a then PosInfinity else NegInfinity)
      else binary64 (a / b)
  | Finite _, _ => Finite 0
  | PosInfinity, Finite b => if Qltb b 0 then NegInfinity else PosInfinity
  | NegInfinity, Finite b => if Qltb b 0 then PosInfinity else NegInfinity
  | _, _ => NaN
  end.

(** Truthiness of a number: everything but [0] and [NaN]. *)
Definition truthy (x : number) : bool :=
  match x with
  | NaN => false
  | Finite a => negb (Qeq_bool a 0)
  | _ => true
  end.

(** [Math.max(...xs)] and [Math.min(...xs)]: the neutral element on no
    argument, [NaN] as soon as one argument is [NaN]. *)
Definition max2 (acc x : number) : number :=
  match acc, x with
  | NaN, _ | _, NaN => NaN
  | _, _ => if ltb acc x then x else acc
  end.

Definition min2 (acc x : number) : number :=
  match acc, x with
  | NaN, _ | _, NaN => NaN
  | _, _ => if ltb x acc then x else acc
  end.

Definition Math_max (xs : list number) : number := fold_left max2 xs NegInfinity.
Definition Math_min (xs : list number) : number := fold_left min2 xs PosInfinity.

(** Numeric equality of two results (the rationals are not kept reduced). *)
Definition equiv (x y : number) : Prop :=
  match x, y with
  | NaN, NaN | NegInfinity, NegInfinity | PosInfinity, PosInfinity => True
  | Finite a, Finite b => a == b
  | _, _ => False
  end.

(** *** [parseFloat] *)

Definition is_digit (c : ascii) : bool :=
  let n := code c in ((48 <=? n) && (n <=? 57))%N.

Fixpoint span (p : ascii -> bool) (s : str) : str * str :=
  match s with
  | [] => ([], [])
  | c :: s' =>
      if p c then let '(a, b) := span p s' in (c :: a, b) else ([], s)
  end.

Definition digits_value (ds : str) : Z :=
  fold_left (fun acc c => 10 * acc + (Z.of_N (code c) - 48))%Z ds 0%Z.

Definition is_char (k : N) (c : ascii) : bool := (code c =? k)%N.

(** An optional sign: [(negative, rest)]. *)
Definition take_sign (s : str) : bool * str :=
  match s with
  | c :: s' =>
      if is_char 45 c then (true, s')
      else if is_char 43 c then (false, s')
      else (false, s)
  | [] => (false, [])
  end.

(** ExponentPart: [e] or [E], an optional sign and at least one digit;
    otherwise the exponent is not part of the literal. *)
Definition exponent (s : str) : Z :=
  match s with
  | c :: s' =>
      if is_char 101 c || is_char 69 c then
        let '(eneg, r) := take_sign s' in
        let '(ds, _) := span is_digit r in
        match ds with
        | [] => 0%Z
        | _ :: _ => if eneg then (- digits_value ds)%Z else digits_value ds
        end
      else 0%Z
  | [] => 0%Z
  end.

(** [parseFloat(s)]: leading white space is dropped and the longest prefix
    that is a StrDecimalLiteral is read; [NaN] when there is none.  The
    result is the double nearest to the decimal value read. *)
Definition parseFloat (s : str) : number :=
  let t := trimStart s in
  let '(negative, u) := take_sign t in
  if startsWith (lit "Infinity") u
  then (if negative then NegInfinity else PosInfinity)
  else
    let '(ip, r1) := span is_digit u in
    let '(fp, r2) :=
      match r1 with
      | c :: r => if is_char 46 c then span is_digit r else ([], r1)
      | [] => ([], r1)
      end in
    match ip ++ fp with
    | [] => NaN
    | ds =>
        let m := inject_Z (digits_value ds) in
        let e := (exponent r2 - Z.of_nat (length fp))%Z in
        let v := m * Qpower (inject_Z 10) e in
        binary64 (if negative then - v else v)
    end.

End JsNumber.

(* ================================================================= *)
(** ** The parsed page and the cheerio calls made on it *)

Module Dom.
Import JsString.

#[local] Set Warnings "-register-all".

(** The tree [cheerio.load] builds.  Tag names are the lower-case names the
    HTML parser produces; [classes] are the tokens of the [class] attribute. *)
Inductive node : Type :=
| Text (data : str)
| Comment (data : str)
| Element (name : str) (classes : list str) (children : list node).

(** A document is the list of the children of its root. *)
Definition document := list node.

(** A cheerio selection: nodes in document order. *)
Definition selection := list node.

Fixpoint str_eqb (a b : str) : bool :=
  match a, b with
  | [], [] => true
  | x :: a', y :: b' => ascii_eqb x y && str_eqb a' b'
  | _, _ => false
  end.

Definition has_name (tag : str) (n : node) : bool :=
  match n with
  | Element name _ _ => str_eqb name tag
  | _ => false
  end.

Definition has_class (cls : str) (n : node) : bool :=
  match n with
  | Element _ classes _ => existsb (str_eqb cls) classes
  | _ => false
  end.

(** The text content of a node: its text descendants, in order. *)
Fixpoint text_of (n : node) : str :=
  match n with
  | Text data => data
  | Comment _ => []
  | Element _ _ children => concat (map text_of children)
  end.

(** [.text()] of a selection. *)
Definition text (sel : selection) : str := concat (map text_of sel).

(** The proper descendants of a node, in document order. *)
Fixpoint descendants (n : node) : list node :=
  match n with
  | Element _ _ children => flat_map (fun k => k :: descendants k) children
  | _ => []
  end.

(** [.find(tag)] on a selection of at most one element. *)
Definition find (tag : str) (sel : selection) : selection :=
  flat_map (fun n => filter (has_name tag) (descendants n)) sel.

(** [.eq(i)]. *)
Definition eq (i : nat) (sel : selection) : selection :=
  match nth_error sel i with
  | Some n => [n]
  | None => []
  end.

(** The selector [tag.cls] evaluated on the whole document. *)
Definition select (tag cls : str) (doc : document) : selection :=
  filter (fun n => has_name tag n && has_class cls n)
         (flat_map (fun k => k :: descendants k) doc).

(** [$(tag.cls).find(inner)]: the [inner] elements lying below an element
    selected by [tag.cls], each once, in document order (of two selected
    elements nested in each other cheerio searches the outer one only).
    [below] tells that an ancestor is selected. *)
Fixpoint find_below (tag cls inner : str) (below : bool) (n : node) : list node :=
  match n with
  | Element _ _ children =>
      (if below && has_name inner n then [n] else []) ++
      flat_map
        (find_below tag cls inner (below || has_name tag n && has_class cls n))
        children
  | _ => []
  end.

Definition select_find (tag cls inner : str) (doc : document) : selection :=
  flat_map (find_below tag cls inner false) doc.

End Dom.

(* ================================================================= *)
(** ** The program *)

Module Phivolcs.
Import JsString JsNumber Dom.

(** *** Types and constants *)

Record EarthquakeData : Type := {
  date : str;
  time : str;
  latitude : str;
  longitude : str;
  depth : str;
  magnitude : str;
  location : str;
  magnitudeNumeric : number
}.

Record CacheEntry : Type := {
  data : list EarthquakeData;
  timestamp : Z
}.

Definition CACHE_TTL_MS : Z := 5 * 60 * 1000.
Definition MAX_TOP_COUNT : nat := 50.

(** What a [throw] carries. *)
Inductive exn : Type :=
| Error (message : str)
| TypeError (message : str)
| AxiosError (message : str).

(** How a call ends: [return v] or [throw e]. *)
Inductive completion (A : Type) : Type :=
| Return (v : A)
| Throw (e : exn).
Arguments Return {A} v.
Arguments Throw {A} e.

Definition bind {A B} (c : completion A) (k : A -> completion B) : completion B :=
  match c with
  | Return v => k v
  | Throw e => Throw e
  end.

Notation "x <- c ;; k" := (bind c (fun x => k))
  (at level 61, c at next level, right associativity).

(** *** Helper functions *)

Definition parseMagnitude (mag : str) : number :=
  let parsed := parseFloat mag in
  if isNaN parsed then Finite 0 else parsed.

Definition isCacheValid (now : Z) (earthquakeCache : option CacheEntry) : bool :=
  match earthquakeCache with
  | None => false
  | Some entry => (now - timestamp entry <? CACHE_TTL_MS)%Z
  end.

(** *** The scraper: the body of the [try] block after the [await] *)

(** One turn of the [.each] callback: [earthquakes] is the array being
    filled, [push] appends. *)
Definition each_row (earthquakes : list EarthquakeData) (row : node)
  : list EarthquakeData :=
  let cols := find (lit "td") [row] in
  if length cols <? 6 then earthquakes
  else
    let dateLink := find (lit "a") (eq 0 cols) in
    let parts :=
      match dateLink with
      | [] => []
      | _ :: _ => split (trim (text dateLink)) (lit " - ")
      end in
    let date0 := nth 0 parts [] in
    let time0 := nth 1 parts [] in
    let magnitudeStr := trim (text (eq 4 cols)) in
    let earthquake := {|
      date := trim date0;
      time := trim time0;
      latitude := trim (text (eq 1 cols));
      longitude := trim (text (eq 2 cols));
      depth := trim (text (eq 3 cols));
      magnitude := magnitudeStr;
      location := trim (collapse_spaces (text (eq 5 cols)));
      magnitudeNumeric := parseMagnitude magnitudeStr
    |} in
    if JsString.truthy (date earthquake) && JsString.truthy (time earthquake)
       && JsString.truthy (magnitude earthquake)
       && JsString.truthy (location earthquake)
    then earthquakes ++ [earthquake]
    else earthquakes.

Definition table_not_found : exn :=
  Error (lit "Earthquake data table not found on page").
Definition no_valid_data : exn :=
  Error (lit "No valid earthquake data found").

Definition table_rows (page : document) : selection :=
  select_find (lit "table") (lit "MsoNormalTable") (lit "tr") page.

Definition scrape (page : document) : completion (list EarthquakeData) :=
  let table := select (lit "table") (lit "MsoNormalTable") page in
  if length table =? 0 then Throw table_not_found
  else
    let earthquakes := fold_left each_row (table_rows page) [] in
    if length earthquakes =? 0 then Throw no_valid_data
    else Return earthquakes.

(** *** [fetchEarthquakes] *)

(** What [await axios.get(...)] yields: a rejection, or the response body
    as [cheerio.load] parses it. *)
Inductive reply : Type :=
| Rejected (e : exn)
| Resolved (page : document).

(** The whole [try] block, given the reply. *)
Definition attempt (r : reply) : completion (list EarthquakeData) :=
  match r with
  | Rejected e => Throw e
  | Resolved page => scrape page
  end.

(** Up to the [await]: [Some data] when the call returns the cached data at
    once, [None] when it issues the request. *)
Definition fetchEarthquakes_enter (forceRefresh : bool) (now : Z)
    (earthquakeCache : option CacheEntry) : option (list EarthquakeData) :=
  if negb forceRefresh && isCacheValid now earthquakeCache
  then match earthquakeCache with
       | Some entry => Some (data entry)
       | None => None
       end
  else None.

(** From the [await] on: [now] is the clock when the reply is handled and
    [earthquakeCache] the variable as it is then.  The result comes with the
    new value of the variable. *)
Definition fetchEarthquakes_resume (r : reply) (now : Z)
    (earthquakeCache : option CacheEntry)
  : completion (list EarthquakeData) * option CacheEntry :=
  match attempt r with
  | Return earthquakes =>
      (Return earthquakes, Some {| data := earthquakes; timestamp := now |})
  | Throw error =>
      match earthquakeCache with
      | Some entry => (Return (data entry), earthquakeCache)
      | None => (Throw error, earthquakeCache)
      end
  end.

(** The module state: the cache variable and, as a ghost counter, the number
    of [axios.get] calls made so far. *)
Record state : Type := {
  earthquakeCache : option CacheEntry;
  requests : nat
}.

Definition initial : state := {| earthquakeCache := None; requests := 0 |}.

(** A call that runs alone, with no other call between its request and its
    reply.  [now] is the clock on entry, [r] and [now'] the reply and the
    clock when it arrives (both unused when the cache answers). *)
Definition fetchEarthquakes (forceRefresh : bool) (now : Z) (r : reply)
    (now' : Z) (st : state) : completion (list EarthquakeData) * state :=
  match fetchEarthquakes_enter forceRefresh now (earthquakeCache st) with
  | Some cached => (Return cached, st)
  | None =>
      let '(res, cache') := fetchEarthquakes_resume r now' (earthquakeCache st) in
      (res, {| earthquakeCache := cache'; requests := S (requests st) |})
  end.

(** *** Calls that overlap

    The handlers run on one thread; a call gives up control at its [await]
    only.  An [event] is either a caller entering [fetchEarthquakes] or the
    reply to a waiting caller arriving. *)
Inductive event : Type :=
| Call (caller : nat) (forceRefresh : bool) (now : Z)
| Reply (caller : nat) (r : reply) (now : Z).

Record system : Type := {
  sys_state : state;
  waiting : list nat;
  finished : list (nat * completion (list EarthquakeData))
}.

Definition boot : system :=
  {| sys_state := initial; waiting := []; finished := [] |}.

Definition step (sys : system) (ev : event) : system :=
  let st := sys_state sys in
  match ev with
  | Call caller forceRefresh now =>
      match fetchEarthquakes_enter forceRefresh now (earthquakeCache st) with
      | Some cached =>
          {| sys_state := st;
             waiting := waiting sys;
             finished := finished sys ++ [(caller, Return cached)] |}
      | None =>
          {| sys_state := {| earthquakeCache := earthquakeCache st;
                             requests := S (requests st) |};
             waiting := waiting sys ++ [caller];
             finished := finished sys |}
      end
  | Reply caller r now =>
      if existsb (Nat.eqb caller) (waiting sys) then
        let '(res, cache') := fetchEarthquakes_resume r now (earthquakeCache st) in
        {| sys_state := {| earthquakeCache := cache'; requests := requests st |};
           waiting := filter (fun c => negb (Nat.eqb caller c)) (waiting sys);
           finished := finished sys ++ [(caller, res)] |}
      else sys
  end.

Definition run (sys : system) (evs : list event) : system :=
  fold_left step evs sys.

(** *** Query helpers *)

Definition filterByMagnitude (earthquakes : list EarthquakeData)
    (minMag : number) (maxMag : option number) : list EarthquakeData :=
  filter
    (fun eq =>
       let mag := magnitudeNumeric eq in
       geb mag minMag &&
       match maxMag with
       | None => true
       | Some m => negb (JsNumber.truthy m) || leb mag m
       end)
    earthquakes.

Definition filterByLocation (earthquakes : list EarthquakeData)
    (location0 : str) : list EarthquakeData :=
  let searchTerm := toLowerCase location0 in
  filter (fun eq => includes (toLowerCase (location eq)) searchTerm) earthquakes.

(** *** [GET /earthquakes/filter]

    A query parameter is an optional string; the schema turns a present,
    non-empty [min_magnitude] or [max_magnitude] into [parseFloat] of it and
    anything else into [undefined]. *)
Definition query_number (val : option str) : option number :=
  match val with
  | Some v => if JsString.truthy v then Some (parseFloat v) else None
  | None => None
  end.

(** The handler, from the validated query to the [data] of the response. *)
Definition filter_query (earthquakes : list EarthquakeData)
    (min_magnitude max_magnitude location0 : option str)
  : list EarthquakeData :=
  let earthquakes1 :=
    match query_number min_magnitude with
    | Some minMag =>
        filterByMagnitude earthquakes minMag (query_number max_magnitude)
    | None => earthquakes
    end in
  match location0 with
  | Some l => if JsString.truthy l then filterByLocation earthquakes1 l
              else earthquakes1
  | None => earthquakes1
  end.

(** *** [Array.prototype.sort]

    The sort is stable.  [compareFn a b] greater than zero puts [a] after
    [b]; a [NaN] verdict counts as zero.  For a comparator that orders the
    elements consistently the result is the one a stable insertion sort
    gives. *)
Section Sort.
Variable A : Type.
Variable compareFn : A -> A -> number.

Fixpoint insert (x : A) (sorted : list A) : list A :=
  match sorted with
  | [] => [x]
  | y :: rest =>
      if gtb (compareFn x y) (Finite 0) then y :: insert x rest
      else x :: sorted
  end.

Definition sort (l : list A) : list A := fold_right insert [] l.
End Sort.

(** *** [GET /earthquakes/top/:count]

    [count] has passed the validator: [0 < count <= MAX_TOP_COUNT]. *)
Definition count_valid (count : nat) : bool :=
  (0 <? count) && (count <=? MAX_TOP_COUNT).

(** The comparator [(a, b) => b.magnitudeNumeric - a.magnitudeNumeric]. *)
Definition by_magnitude (a b : EarthquakeData) : number :=
  sub (magnitudeNumeric b) (magnitudeNumeric a).

(** [[...earthquakes].sort(by_magnitude).slice(0, count)] *)
Definition topEarthquakes (earthquakes : list EarthquakeData) (count : nat)
  : list EarthquakeData :=
  firstn count (sort by_magnitude earthquakes).

(** *** [GET /earthquakes/stats] *)

Record Range : Type := {
  max : number;
  min : number;
  average : number
}.

Record Stats : Type := {
  total_count : nat;
  magnitude_range : Range;
  depth_range : Range;
  most_recent : option EarthquakeData;
  strongest : EarthquakeData
}.

(** What [reduce] throws on an empty array when it is given no initial
    value (the wording of the message is the engine's). *)
Definition reduce_of_empty : exn :=
  TypeError (lit "Reduce of empty array with no initial value").

(** [arr.reduce(f)] with no initial value. *)
Definition reduce1 {A} (f : A -> A -> A) (arr : list A) : completion A :=
  match arr with
  | [] => Throw reduce_of_empty
  | x :: rest => Return (fold_left f rest x)
  end.

Definition range_of (xs : list number) : Range :=
  {| max := Math_max xs;
     min := Math_min xs;
     average := div (fold_left add xs (Finite 0)) (of_nat (length xs)) |}.

(** The reducer
    [(prev, curr) => curr.magnitudeNumeric > prev.magnitudeNumeric ? curr : prev]. *)
Definition stronger (prev curr : EarthquakeData) : EarthquakeData :=
  if gtb (magnitudeNumeric curr) (magnitudeNumeric prev) then curr else prev.

(** The object literal [stats]; its properties are evaluated in order, the
    last one may throw. *)
Definition stats (earthquakes : list EarthquakeData) : completion Stats :=
  let magnitudes := map magnitudeNumeric earthquakes in
  let depths := map (fun eq => parseMagnitude (depth eq)) earthquakes in
  let total := length earthquakes in
  let magnitude_r := range_of magnitudes in
  let depth_r := range_of depths in
  let first := nth_error earthquakes 0 in
  s <- reduce1 stronger earthquakes ;;
  Return {| total_count := total;
            magnitude_range := magnitude_r;
            depth_range := depth_r;
            most_recent := first;
            strongest := s |}.

(** *** [parseCoordinate]

    Declared beside [parseMagnitude]; no route calls it. *)
Definition parseCoordinate (coord : str) : number :=
  let parsed := parseFloat coord in
  if isNaN parsed then Finite 0 else parsed.

(** *** The [count] path parameter

    The schema of [/earthquakes/top/:count] and [/earthquakes/recent/:count]:
    the regular expression [/^\d+$/], then [Number], then the range test.
    [None] is a rejected request. *)
Definition count_param (s : str) : option nat :=
  if JsString.truthy s && forallb is_digit s
  then
    let n := digits_value s in
    if ((0 <? n) && (n <=? Z.of_nat MAX_TOP_COUNT))%Z
    then Some (Z.to_nat n) else None
  else None.

(** *** The handlers

    Each handler is given what [await fetchEarthquakes()] produced, the
    clock read while the response is built, and the cache variable as it is
    then.  The [timestamp] entry of [meta], the wall-clock time of the
    response, is left out of the bodies. *)

(** [error instanceof Error ? error.message : 'Unknown error']: everything
    thrown here is an [Error]. *)
Definition message_of (e : exn) : str :=
  match e with
  | Error m | TypeError m | AxiosError m => m
  end.

(** A response: the JSON body with status 200, or an error body with its
    status. *)
Inductive response (B : Type) : Type :=
| Json (body : B)
| JsonError (status : nat) (error : str) (message : str).
Arguments Json {B} body.
Arguments JsonError {B} status error message.

(** [GET /health].  [last_update] is the instant that is printed. *)
Record Health : Type := {
  cache_valid : bool;
  last_update : option Z;
  data_count : nat
}.

Inductive HealthResponse : Type :=
| Healthy (h : Health)
| Unhealthy (status : nat) (error : str).

Definition health (fetched : completion (list EarthquakeData)) (now : Z)
    (cache : option CacheEntry) : HealthResponse :=
  match fetched with
  | Return earthquakes =>
      Healthy {| cache_valid := isCacheValid now cache;
                 last_update :=
                   match cache with
                   | Some entry =>
                       if (timestamp entry =? 0)%Z then None
                       else Some (timestamp entry)
                   | None => None
                   end;
                 data_count := length earthquakes |}
  | Throw e => Unhealthy 503 (message_of e)
  end.

(** [GET /earthquakes]. *)
Record Listing : Type := {
  count : nat;
  cache_age_seconds : Z;
  listed : list EarthquakeData
}.

Definition earthquakes_list (fetched : completion (list EarthquakeData))
    (now : Z) (cache : option CacheEntry) : response Listing :=
  match fetched with
  | Return earthquakes =>
      Json {| count := length earthquakes;
              cache_age_seconds :=
                match cache with
                | Some entry => ((now - timestamp entry) / 1000)%Z
                | None => 0%Z
                end;
              listed := earthquakes |}
  | Throw e => JsonError 500 (lit "Failed to fetch earthquake data") (message_of e)
  end.

(** [GET /earthquakes/top/:count], for a validated [count]. *)
Record Top : Type := {
  top_count : nat;
  top_requested : nat;
  total_available : nat;
  top_data : list EarthquakeData
}.

Definition top (requested : nat) (fetched : completion (list EarthquakeData))
  : response Top :=
  match fetched with
  | Return earthquakes =>
      let best := topEarthquakes earthquakes requested in
      Json {| top_count := length best;
              top_requested := requested;
              total_available := length earthquakes;
              top_data := best |}
  | Throw e => JsonError 500 (lit "Failed to fetch top earthquakes") (message_of e)
  end.

(** [GET /earthquakes/recent/:count], for a validated [count]. *)
Definition recentEarthquakes (earthquakes : list EarthquakeData) (requested : nat)
  : list EarthquakeData :=
  firstn requested earthquakes.

Record Recent : Type := {
  recent_count : nat;
  recent_requested : nat;
  recent_data : list EarthquakeData
}.

Definition recent (requested : nat) (fetched : completion (list EarthquakeData))
  : response Recent :=
  match fetched with
  | Return earthquakes =>
      let latest := recentEarthquakes earthquakes requested in
      Json {| recent_count := length latest;
              recent_requested := requested;
              recent_data := latest |}
  | Throw e =>
      JsonError 500 (lit "Failed to fetch recent earthquakes") (message_of e)
  end.

(** [GET /earthquakes/stats]: a throw of the statistics is caught like a
    throw of the fetch. *)
Definition stats_response (fetched : completion (list EarthquakeData))
  : response Stats :=
  match (earthquakes <- fetched ;; stats earthquakes) with
  | Return s => Json s
  | Throw e =>
      JsonError 500 (lit "Failed to calculate earthquake statistics")
                (message_of e)
  end.

(** A request served alone: the unforced fetch, then the handler.  [later]
    is the clock when the response is built. *)
Definition serve {B} (handler : completion (list EarthquakeData) -> Z ->
                                option CacheEntry -> B)
    (now : Z) (r : reply) (now' later : Z) (st : state) : B * state :=
  let '(fetched, st') := fetchEarthquakes false now r now' st in
  (handler fetched later (earthquakeCache st'), st').

End Phivolcs.

(* ================================================================= *)
(** ** What the specification says, in its own terms *)

Module Spec.
Import JsString JsNumber Dom Phivolcs.

(** *** Extractor (spec section 4.1) *)

(** The cells of a table row. *)
Definition cells (row : node) : selection := find (lit "td") [row].

(** Column 0: the text of the link, split on [" - "]; nothing when the cell
    has no link. *)
Definition date_time (row : node) : list str :=
  match find (lit "a") (Dom.eq 0 (cells row)) with
  | [] => []
  | link => split (trim (text link)) (lit " - ")
  end.

Definition column (i : nat) (row : node) : str := text (Dom.eq i (cells row)).

(** Non-empty after trimming. *)
Definition filled (s : str) : bool := JsString.truthy (trim s).

(** A qualifying row: at least 6 cells, and date, time, magnitude and
    location all non-empty after trimming. *)
Definition qualifies (row : node) : bool :=
  (6 <=? length (cells row)) &&
  filled (nth 0 (date_time row) []) &&
  filled (nth 1 (date_time row) []) &&
  filled (column 4 row) &&
  filled (column 5 row).

(** The Record of a row, by the column mapping. *)
Definition record_of (row : node) : EarthquakeData :=
  {| date := trim (nth 0 (date_time row) []);
     time := trim (nth 1 (date_time row) []);
     latitude := trim (column 1 row);
     longitude := trim (column 2 row);
     depth := trim (column 3 row);
     magnitude := trim (column 4 row);
     location := trim (collapse_spaces (column 5 row));
     magnitudeNumeric := parseMagnitude (trim (column 4 row)) |}.

(** The Record invariant of section 3. *)
Definition required_fields (r : EarthquakeData) : Prop :=
  date r <> [] /\ time r <> [] /\ magnitude r <> [] /\ location r <> [].

(** [magnitudeNumeric] is the lossy parse of [magnitude]. *)
Definition derived_magnitude (r : EarthquakeData) : Prop :=
  magnitudeNumeric r = parseMagnitude (magnitude r).

(** A Record as section 3 describes it. *)
Definition well_formed (r : EarthquakeData) : Prop :=
  required_fields r /\ derived_magnitude r.

(** A sequence the Cache Manager may hand out: not empty, Records only. *)
Definition servable (records : list EarthquakeData) : Prop :=
  records <> [] /\ Forall well_formed records.

(** *** Cache Manager (spec section 4.3) *)

(** The slot is empty or holds a servable sequence. *)
Definition snapshot_ok (cache : option CacheEntry) : Prop :=
  match cache with
  | None => True
  | Some entry => servable (data entry)
  end.

(** Every sequence returned so far is servable. *)
Definition served_ok (sys : system) : Prop :=
  snapshot_ok (earthquakeCache (sys_state sys)) /\
  forall caller records,
    In (caller, Return records) (finished sys) -> servable records.

(** [n] callers entering at the same instant, none forcing a refresh. *)
Definition burst (n : nat) (now : Z) : list event :=
  map (fun caller => Call caller false now) (seq 0 n).

(** Single flight, as section 8 tests it: [n] simultaneous calls against
    the empty cache make one upstream request. *)
Definition single_flight (n : nat) : Prop :=
  forall now, requests (sys_state (run boot (burst n now))) = 1%nat.

(** *** Query Engine (spec section 4.4) *)

(** The same string up to the case of its letters, code unit by code unit. *)
Inductive recased : str -> str -> Prop :=
| recased_nil : recased [] []
| recased_cons a b s t :
    a = b \/ b = lower_char a \/ a = lower_char b ->
    recased s t -> recased (a :: s) (b :: t).

(** Case-insensitive comparison: equal once both are lower-cased. *)
Definition ci_equal (s t : str) : Prop := toLowerCase s = toLowerCase t.

(** [hay] contains [needle] under case-insensitive comparison. *)
Definition contains_ci (hay needle : str) : Prop :=
  exists pre mid post, hay = pre ++ mid ++ post /\ ci_equal mid needle.

(** Two numbers are the same magnitude. *)
Definition same_value (m x : number) : bool := leb x m && leb m x.

(** Descending order of [magnitudeNumeric]. *)
Definition ge_mag (a b : EarthquakeData) : Prop :=
  geb (magnitudeNumeric a) (magnitudeNumeric b) = true.

Definition descending (l : list EarthquakeData) : Prop :=
  StronglySorted ge_mag l.

(** [sub] is a multiset subset of [l]. *)
Definition multiset_subset {A} (sub l : list A) : Prop :=
  exists rest, Permutation (sub ++ rest) l.

(** Arithmetic mean of exact values. *)
Definition total (qs : list Q) : Q := fold_right Qplus 0 qs.
Definition mean (qs : list Q) : Q := total qs / inject_Z (Z.of_nat (length qs)).

(** [m] is the greatest (smallest) element of [xs]. *)
Definition is_maximum (m : number) (xs : list number) : Prop :=
  In m xs /\ forall x, In x xs -> leb x m = true.
Definition is_minimum (m : number) (xs : list number) : Prop :=
  In m xs /\ forall x, In x xs -> leb m x = true.

(** [s] is the first record of [l] with the greatest magnitude. *)
Definition first_strongest (s : EarthquakeData) (l : list EarthquakeData) : Prop :=
  exists before after,
    l = before ++ s :: after /\
    (forall r, In r before ->
       ltb (magnitudeNumeric r) (magnitudeNumeric s) = true) /\
    (forall r, In r after ->
       leb (magnitudeNumeric r) (magnitudeNumeric s) = true).

(** *** Requests served one after the other *)

(** A visit is the clock on entry, the reply and the clock when it arrives.
    [poll] runs unforced calls one after the other and collects what each
    returns. *)
Fixpoint poll (visits : list (Z * reply * Z)) (st : state)
  : list (completion (list EarthquakeData)) * state :=
  match visits with
  | [] => ([], st)
  | (now, r, now') :: rest =>
      let '(res, st1) := fetchEarthquakes false now r now' st in
      let '(more, st2) := poll rest st1 in
      (res :: more, st2)
  end.

(** The cache has expired at [now]. *)
Definition expired (now : Z) (entry : CacheEntry) : Prop :=
  (CACHE_TTL_MS <= now - timestamp entry)%Z.

(** The results in [after] that were not yet in [before]. *)
Definition no_new_throw (before after : system) : Prop :=
  exists added,
    finished after = finished before ++ added /\
    Forall (fun x => exists records, snd x = Return records) added.

(** *** Shape of the extracted strings *)

(** No white space at either end. *)
Definition edge_clean (s : str) : Prop :=
  (forall c t, s = c :: t -> is_space c = false) /\
  (forall c t, s = t ++ [c] -> is_space c = false).

(** The only white space is the space character, and never two in a row. *)
Fixpoint single_spaced (s : str) : bool :=
  match s with
  | [] => true
  | c :: t =>
      (if is_space c
       then ascii_eqb c " "%char &&
            match t with
            | d :: _ => negb (is_space d)
            | [] => true
            end
       else true) && single_spaced t
  end.

(** *** Numeric prefixes *)

(** A code unit after which a run of digits cannot go on as a number:
    not a digit, not the point, not an exponent mark. *)
Definition ends_number (c : ascii) : bool :=
  negb (is_digit c) && negb (is_char 46 c) &&
  negb (is_char 101 c) && negb (is_char 69 c).

(** The rest of the string does not continue the number. *)
Definition unit_suffix (rest : str) : Prop :=
  match rest with
  | [] => True
  | c :: _ => ends_number c = true
  end.

(** *** Statistics in double precision *)

(** The rational [q] is a double: rounding leaves its value alone. *)
Definition representable (q : Q) : Prop := equiv (binary64 q) (Finite q).

(** Averaging [qs] involves no rounding: every running sum from the left
    and the quotient by the count are doubles. *)
Definition no_rounding (qs : list Q) : Prop :=
  (forall k, (k <= length qs)%nat -> representable (total (firstn k qs))) /\
  representable (mean qs).

(** The sum accumulated from the left, each addition rounded, and the
    average taken from it by one rounded division. *)
Fixpoint running_sum (acc : number) (xs : list number) : number :=
  match xs with
  | [] => acc
  | x :: rest => running_sum (add acc x) rest
  end.

Definition rounded_mean (xs : list number) : number :=
  div (running_sum (Finite 0) xs) (of_nat (length xs)).

(** The numeric prefix of a string by the lossy rule: what [parseFloat]
    reads at its front, 0 when it reads nothing. *)
Definition numeric_prefix (s : str) : number :=
  match parseFloat s with
  | NaN => Finite 0
  | x => x
  end.

(** The average as the specification words it, read in the code's favour:
    the double nearest to the arithmetic mean of the magnitudes. *)
Definition average_is_mean (records : list EarthquakeData) : Prop :=
  forall s qs,
    stats records = Return s ->
    map magnitudeNumeric records = map Finite qs ->
    equiv (average (magnitude_range s)) (binary64 (mean qs)).

End Spec.

(* ================================================================= *)
(** ** Fixtures *)

Module Fixture.
Import JsString JsNumber Dom Phivolcs.

Definition td (s : string) : node := Element (lit "td") [] [Text (lit s)].
Definition td_link (s : string) : node :=
  Element (lit "td") [] [Element (lit "a") [] [Text (lit s)]].
Definition tr (when_ lat lon dep mag loc : string) : node :=
  Element (lit "tr") []
    [td_link when_; td lat; td lon; td dep; td mag; td loc].

Definition header : node := Element (lit "tr") [] [td "Date - Time"; td "Location"].

Definition bulletin (rows : list node) : document :=
  [Element (lit "html") []
     [Element (lit "body") []
        [Element (lit "table") [lit "MsoNormalTable"]
           [Element (lit "tbody") [] rows]]]].

(** A header row, two good rows and one whose link text has no [" - "]. *)
Definition page_good : document :=
  bulletin
    [header;
     tr " 12 May 2024 - 10:30 AM " "13.75" "121.05" "010" " 4.5 "
        "  015 km  N of Batangas City ";
     tr "12 May 2024 10:12 AM" "09.11" "126.30" "025" "3.1" "Siargao";
     tr "12 May 2024 - 09:05 AM" "07.02" "125.60" "5 km" "5.8" "Davao"].

(** A page without the table, and one whose table has only a header. *)
Definition page_no_table : document :=
  [Element (lit "html") [] [Element (lit "body") [] [Text (lit "maintenance")]]].
Definition page_empty_table : document := bulletin [header].

Definition quake (mag : Q) (loc : string) : EarthquakeData :=
  {| date := lit "12 May 2024"; time := lit "10:30 AM";
     latitude := lit "13.75"; longitude := lit "121.05";
     depth := lit "010"; magnitude := lit "m"; location := lit loc;
     magnitudeNumeric := Finite mag |}.

Definition three : list EarthquakeData :=
  [quake 4.5 "Batangas"; quake 5.8 "Davao"; quake 2.1 "Siargao"].

Definition five : list EarthquakeData :=
  [quake 4.5 "Batangas"; quake 5.8 "Davao"; quake 2.1 "Siargao";
   quake 5.8 "Surigao"; quake 4.5 "Mindoro"].

Definition old_entry : CacheEntry := {| data := three; timestamp := 1000 |}.

Definition network_down : exn := AxiosError (lit "timeout of 15000ms exceeded").

(** The first data row of [page_good]. *)
Definition batangas_row : node :=
  tr " 12 May 2024 - 10:30 AM " "13.75" "121.05" "010" " 4.5 "
     "  015 km  N of Batangas City ".

(** What the scraper returns on [page_good], and a snapshot of it. *)
Definition good_records : list EarthquakeData :=
  map Spec.record_of (filter Spec.qualifies (table_rows page_good)).

Definition good_entry : CacheEntry :=
  {| data := good_records; timestamp := 1000 |}.

(** Records as the scraper builds them, the magnitude parsed from its
    text. *)
Definition measured (mag dep loc : string) : EarthquakeData :=
  {| date := lit "12 May 2024"; time := lit "10:30 AM";
     latitude := lit "13.75"; longitude := lit "121.05";
     depth := lit dep; magnitude := lit mag; location := lit loc;
     magnitudeNumeric := parseMagnitude (lit mag) |}.

Definition measured_three : list EarthquakeData :=
  [measured "4.5" "010 km" "Batangas"; measured "5.8" "5 km" "Davao";
   measured "2.1" "3" "Siargao"].

Definition thrice (mag : string) : list EarthquakeData :=
  [measured mag "010" "Batangas"; measured mag "010" "Davao";
   measured mag "010" "Siargao"].

(** Magnitudes whose sums and mean are doubles. *)
Definition halves : list EarthquakeData :=
  [measured "4.5" "010 km" "Batangas"; measured "2.5" "5 km" "Davao";
   measured "2.0" "3" "Siargao"].

End Fixture.

(* ================================================================= *)
(** ** Facts about strings *)

Module JsStringFacts.
Import JsString.

Lemma ascii_eqb_eq (a b : ascii) : ascii_eqb a b = true <-> a = b.
Proof.
  unfold ascii_eqb, code. rewrite N.eqb_eq. split.
  - intros H. rewrite <- (ascii_N_embedding a), <- (ascii_N_embedding b).
    now rewrite H.
  - now intros ->.
Qed.

Lemma startsWith_app (p t : str) : startsWith p (p ++ t) = true.
Proof.
  induction p as [|a p IH]; simpl; [reflexivity|].
  rewrite IH, andb_true_r. now apply ascii_eqb_eq.
Qed.

Lemma startsWith_spec (p s : str) :
  startsWith p s = true <-> exists t, s = p ++ t.
Proof.
  split.
  - revert s. induction p as [|a p IH]; intros s H.
    + now exists s.
    + destruct s as [|b s]; simpl in H; [discriminate|].
      apply andb_true_iff in H as [Hab Hp].
      apply ascii_eqb_eq in Hab as ->.
      destruct (IH _ Hp) as [t ->]. now exists t.
  - intros [t ->]. apply startsWith_app.
Qed.

Lemma includes_head (s p : str) :
  startsWith p s = true -> includes s p = true.
Proof. intros H. destruct s; simpl; now rewrite H. Qed.

Lemma includes_spec (s p : str) :
  includes s p = true <-> exists pre post, s = pre ++ p ++ post.
Proof.
  split.
  - induction s as [|c s IH]; simpl; intros H.
    + rewrite orb_false_r in H. apply startsWith_spec in H as [t Ht].
      now exists [], t.
    + apply orb_true_iff in H as [H|H].
      * apply startsWith_spec in H as [t Ht]. now exists [], t.
      * destruct (IH H) as (pre & post & ->). now exists (c :: pre), post.
  - intros (pre & post & ->).
    induction pre as [|c pre IH].
    + apply includes_head. exact (startsWith_app p post).
    + simpl. simpl in IH. rewrite IH. apply orb_true_r.
Qed.

Lemma trimStart_blank (s : str) : trimStart s = [] <-> blank s = true.
Proof.
  induction s as [|c s IH]; simpl.
  - tauto.
  - destruct (is_space c); simpl; [exact IH|].
    split; discriminate.
Qed.

Lemma blank_rev (s : str) : blank (rev s) = blank s.
Proof.
  unfold blank. induction s as [|c s IH]; simpl; [reflexivity|].
  rewrite forallb_app, IH. simpl. rewrite andb_true_r. apply andb_comm.
Qed.

Lemma blank_trimStart (s : str) : blank (trimStart s) = blank s.
Proof.
  induction s as [|c s IH]; simpl; [reflexivity|].
  destruct (is_space c) eqn:E; simpl.
  - exact IH.
  - now rewrite E.
Qed.

Lemma trim_blank (s : str) : trim s = [] <-> blank s = true.
Proof.
  unfold trim, trimEnd.
  rewrite <- (blank_trimStart s), <- (blank_rev (trimStart s)).
  rewrite <- trimStart_blank.
  split; intros H.
  - apply (f_equal (@rev ascii)) in H. now rewrite rev_involutive in H.
  - now rewrite H.
Qed.

Lemma blank_collapse (b : bool) (s : str) : blank (collapse_go b s) = blank s.
Proof.
  revert b. induction s as [|c s IH]; intros b; simpl; [reflexivity|].
  destruct (is_space c) eqn:E.
  - destruct b; simpl; now rewrite IH.
  - simpl. now rewrite E.
Qed.

Lemma truthy_nil (s : str) : truthy s = false <-> s = [].
Proof. destruct s; simpl; split; congruence. Qed.

Lemma truthy_trim (s : str) : truthy (trim s) = negb (blank s).
Proof.
  destruct (blank s) eqn:E.
  - apply trim_blank in E. now rewrite E.
  - destruct (truthy (trim s)) eqn:T; [reflexivity|].
    apply truthy_nil, trim_blank in T. congruence.
Qed.

(** White-space normalisation does not change whether a text is empty
    after trimming. *)
Lemma truthy_trim_collapse (s : str) :
  truthy (trim (collapse_spaces s)) = truthy (trim s).
Proof.
  rewrite !truthy_trim. unfold collapse_spaces. now rewrite blank_collapse.
Qed.

Lemma lower_char_idem (c : ascii) : lower_char (lower_char c) = lower_char c.
Proof.
  destruct c as [[] [] [] [] [] [] [] []]; reflexivity.
Qed.

Lemma toLowerCase_idem (s : str) : toLowerCase (toLowerCase s) = toLowerCase s.
Proof.
  unfold toLowerCase. rewrite map_map. apply map_ext. apply lower_char_idem.
Qed.

Lemma toLowerCase_app (s t : str) :
  toLowerCase (s ++ t) = toLowerCase s ++ toLowerCase t.
Proof. apply map_app. Qed.

End JsStringFacts.

(* ================================================================= *)
(** ** Facts about rounding to double precision *)

Module Binary64Facts.
Import JsNumber SpecFloat.

(** *** No rounding produces [NaN] *)

Lemma shr_1_nonneg (mrs : shr_record) :
  (0 <= shr_m mrs)%Z -> (0 <= shr_m (shr_1 mrs))%Z.
Proof.
  destruct mrs as [m r s]. destruct m as [|[p|p|]|p]; simpl; lia.
Qed.

Lemma iter_shr_1_nonneg (p : positive) :
  forall mrs, (0 <= shr_m mrs)%Z -> (0 <= shr_m (iter_pos shr_1 p mrs))%Z.
Proof.
  induction p as [p IH|p IH|]; intros mrs H; simpl.
  - apply IH, IH. now apply shr_1_nonneg.
  - now apply IH, IH.
  - now apply shr_1_nonneg.
Qed.

Lemma shr_fexp_nonneg (m e : Z) (l : location) :
  (0 <= m)%Z -> (0 <= shr_m (fst (shr_fexp 53 1024 m e l)))%Z.
Proof.
  intros H. unfold shr_fexp, shr.
  assert (H0 : (0 <= shr_m (shr_record_of_loc m l))%Z)
    by (destruct l as [|[]]; exact H).
  destruct (fexp 53 1024 (Zdigits2 m + e) - e)%Z; simpl; auto.
  now apply iter_shr_1_nonneg.
Qed.

Lemma round_nearest_even_nonneg (m : Z) (l : location) :
  (0 <= m)%Z -> (0 <= round_nearest_even m l)%Z.
Proof.
  intros H. destruct l as [|[]]; simpl; try lia.
  destruct (Z.even m); lia.
Qed.

Lemma binary_round_aux_number (s : bool) (m e : Z) (l : location) :
  (0 <= m)%Z -> binary_round_aux 53 1024 s m e l <> S754_nan.
Proof.
  intros H. unfold binary_round_aux.
  pose proof (@shr_fexp_nonneg m e l H) as H1.
  destruct (shr_fexp 53 1024 m e l) as [mrs' e']. simpl in H1.
  pose proof (@shr_fexp_nonneg _ e' loc_Exact
                (@round_nearest_even_nonneg _ (loc_of_shr_record mrs') H1)) as H2.
  destruct (shr_fexp 53 1024 _ e' loc_Exact) as [mrs'' e'']. simpl in H2.
  destruct (shr_m mrs'') as [|p|p]; [discriminate| |lia].
  destruct (e'' <=? 1024 - 53)%Z; discriminate.
Qed.

Lemma SFdiv_number (s : bool) (n d : positive) :
  SFdiv 53 1024 (S754_finite s n 0) (S754_finite false d 0) <> S754_nan.
Proof.
  unfold SFdiv, SFdiv_core_binary.
  set (m' := match _ with Zpos _ => _ | Z0 => _ | Zneg _ => _ end).
  assert (Hm : (0 <= m')%Z).
  { subst m'. destruct (_ - _ - _)%Z; try lia.
    apply Z.shiftl_nonneg. lia. }
  pose proof (Z_div_mod m' (Zpos d) eq_refl) as H.
  destruct (Z.div_eucl m' (Zpos d)) as [q r].
  apply binary_round_aux_number. nia.
Qed.

Lemma binary64_number (q : Q) : binary64 q <> NaN.
Proof.
  unfold binary64. destruct (Qnum (Qred q)) as [|n|n]; [discriminate| |];
    match goal with
    | |- of_binary64 ?f <> NaN =>
        pose proof (@SFdiv_number _ n (Qden (Qred q)) : f <> S754_nan) as H;
        destruct f as [?|[]| |[] ? ?]; simpl; try discriminate; congruence
    end.
Qed.

(** *** Whole numbers *)

Lemma size_bounds (p : positive) :
  (2 ^ (Zpos (digits2_pos p) - 1) <= Zpos p < 2 ^ Zpos (digits2_pos p))%Z.
Proof.
  induction p as [p IH|p IH|]; cbn [digits2_pos].
  - rewrite Pos2Z.inj_succ.
    replace (Z.succ (Zpos (digits2_pos p)) - 1)%Z
      with (Z.succ (Zpos (digits2_pos p) - 1)) by lia.
    rewrite !Z.pow_succ_r by lia. lia.
  - rewrite Pos2Z.inj_succ.
    replace (Z.succ (Zpos (digits2_pos p)) - 1)%Z
      with (Z.succ (Zpos (digits2_pos p) - 1)) by lia.
    rewrite !Z.pow_succ_r by lia. lia.
  - simpl. lia.
Qed.

Lemma size_unique (p : positive) (d : Z) :
  (2 ^ (d - 1) <= Zpos p < 2 ^ d)%Z -> Zpos (digits2_pos p) = d.
Proof.
  intros [H1 H2]. destruct (size_bounds p) as [H3 H4].
  assert (Hd : (0 < d)%Z).
  { destruct (Z_lt_le_dec 0 d) as [|Hd]; [assumption|].
    destruct (Z.eq_dec d 0) as [->|]; [simpl in H2; lia|].
    rewrite (Z.pow_neg_r 2 d) in H2 by lia. lia. }
  assert (d - 1 < Zpos (digits2_pos p))%Z.
  { apply (Z.pow_lt_mono_r_iff 2); lia. }
  assert (Zpos (digits2_pos p) - 1 < d)%Z.
  { apply (Z.pow_lt_mono_r_iff 2); lia. }
  lia.
Qed.

(** A significand of 53 bits with an exponent in range is left alone. *)
Lemma round_exact (s : bool) (p : positive) (e : Z) :
  Zpos (digits2_pos p) = 53%Z -> (-1074 <= e <= 971)%Z ->
  binary_round_aux 53 1024 s (Zpos p~0) (e - 1) loc_Exact = S754_finite s p e.
Proof.
  intros Hp He. unfold binary_round_aux, shr_fexp.
  cbn [Zdigits2 digits2_pos]. rewrite Pos2Z.inj_succ, Hp.
  replace (fexp 53 1024 (Z.succ 53 + (e - 1)) - (e - 1))%Z with 1%Z
    by (unfold fexp, emin; lia).
  cbn [shr shr_record_of_loc iter_pos shr_1 orb shr_m loc_of_shr_record
       round_nearest_even Zdigits2].
  rewrite Hp.
  replace (fexp 53 1024 (53 + (e - 1 + 1)) - (e - 1 + 1))%Z with 0%Z
    by (unfold fexp, emin; lia).
  cbn [shr shr_record_of_loc shr_m].
  replace (e - 1 + 1 <=? 1024 - 53)%Z with true
    by (symmetry; apply Z.leb_le; lia).
  f_equal. lia.
Qed.

Lemma div_eucl_1 (m : Z) : Z.div_eucl m 1 = (m, 0%Z).
Proof.
  pose proof (Z.div_1_r m) as H1. pose proof (Z.mod_1_r m) as H2.
  unfold Z.div, Z.modulo in *. destruct (Z.div_eucl m 1). simpl in *.
  congruence.
Qed.

(** The quotient of a whole number below [2 ^ 53] by one is that number. *)
Lemma SFdiv_integer (s : bool) (n : positive) :
  (Zpos n < 2 ^ 53)%Z ->
  let d := Zpos (digits2_pos n) in
  SFdiv 53 1024 (S754_finite s n 0) (S754_finite false 1 0) =
  S754_finite s (Z.to_pos (Zpos n * 2 ^ (53 - d))) (d - 53).
Proof.
  intros Hn d. destruct (size_bounds n) as [H1 H2]. fold d in H1, H2.
  assert (Hd : (1 <= d <= 53)%Z).
  { split; [subst d; lia|].
    assert (d - 1 < 53)%Z; [|lia].
    apply (Z.pow_lt_mono_r_iff 2); lia. }
  set (p := Z.to_pos (Zpos n * 2 ^ (53 - d))).
  assert (Ep : Zpos p = (Zpos n * 2 ^ (53 - d))%Z).
  { subst p. rewrite Z2Pos.id; [reflexivity|].
    apply Z.mul_pos_pos; [lia|]. apply Z.pow_pos_nonneg; lia. }
  assert (Hp : Zpos (digits2_pos p) = 53%Z).
  { apply size_unique. rewrite Ep.
    assert (E1 : (2 ^ 53 = 2 ^ d * 2 ^ (53 - d))%Z)
      by (rewrite <- Z.pow_add_r by lia; f_equal; lia).
    assert (E2 : (2 ^ (53 - 1) = 2 ^ (d - 1) * 2 ^ (53 - d))%Z)
      by (rewrite <- Z.pow_add_r by lia; f_equal; lia).
    rewrite E1, E2.
    assert (0 < 2 ^ (53 - d))%Z by (apply Z.pow_pos_nonneg; lia).
    split; [apply Z.mul_le_mono_nonneg_r; lia
           |apply Z.mul_lt_mono_pos_r; lia]. }
  unfold SFdiv, SFdiv_core_binary. cbn [Zdigits2 digits2_pos xorb]. fold d.
  replace (Z.min (fexp 53 1024 (d + 0 - (1 + 0))) (0 - 0))%Z with (d - 54)%Z
    by (unfold fexp, emin; lia).
  replace (0 - 0 - (d - 54))%Z with (Z.succ (53 - d)) by lia.
  assert (Em : match Z.succ (53 - d) with
               | Zpos _ => Z.shiftl (Zpos n) (Z.succ (53 - d))
               | Z0 => Zpos n
               | Zneg _ => 0%Z
               end = Zpos p~0).
  { destruct (Z.succ (53 - d)) eqn:E; try lia.
    rewrite <- E, Z.shiftl_mul_pow2, Z.pow_succ_r by lia.
    change (Zpos p~0) with (2 * Zpos p)%Z. rewrite Ep. ring. }
  rewrite Em, div_eucl_1.
  change (new_location 1 0) with loc_Exact.
  replace (d - 54)%Z with (d - 53 - 1)%Z by lia.
  rewrite round_exact; try assumption; try lia.
  destruct s; reflexivity.
Qed.

Lemma Qred_integer (z : Z) : Qred (inject_Z z) = inject_Z z.
Proof.
  pose proof (Qred_correct (inject_Z z)) as H.
  pose proof (gcd_Qred (inject_Z z)) as G.
  destruct (Qred (inject_Z z)) as [a b]. unfold Qeq in H. simpl in H, G.
  assert (Ea : a = (Zpos b * z)%Z) by lia.
  rewrite Ea, Z.gcd_comm, Z.gcd_mul_diag_l in G by lia.
  injection G as ->. unfold inject_Z. f_equal. lia.
Qed.

Lemma of_binary64_scaled (s : bool) (n : positive) (d : Z) :
  (1 <= d <= 53)%Z ->
  of_binary64 (S754_finite s (Z.to_pos (Zpos n * 2 ^ (53 - d))) (d - 53)) =
  Finite (inject_Z (if s then Zneg n else Zpos n)).
Proof.
  intros Hd.
  assert (Hpow : (0 < 2 ^ (53 - d))%Z) by (apply Z.pow_pos_nonneg; lia).
  assert (Ep : Zpos (Z.to_pos (Zpos n * 2 ^ (53 - d))) =
               (Zpos n * 2 ^ (53 - d))%Z)
    by (rewrite Z2Pos.id; [reflexivity|apply Z.mul_pos_pos; lia]).
  unfold of_binary64. f_equal.
  rewrite <- (Qred_integer (if s then Zneg n else Zpos n)).
  apply Qred_complete.
  destruct (d - 53)%Z as [|k|k] eqn:E; try lia.
  - replace (53 - d)%Z with 0%Z in * by lia.
    destruct s; unfold Qeq; simpl; lia.
  - replace (53 - d)%Z with (Zpos k) in * by lia.
    assert (Ek : Zpos (2 ^ k) = (2 ^ Zpos k)%Z) by apply Pos2Z.inj_pow.
    destruct s; unfold Qeq, Qopp; cbn [Qnum Qden inject_Z];
      rewrite Ep, Ek; lia.
Qed.

(** Whole numbers up to [2 ^ 53] in size are doubles. *)
Lemma binary64_integer (z : Z) :
  (Z.abs z <= 2 ^ 53)%Z -> binary64 (inject_Z z) = Finite (inject_Z z).
Proof.
  intros Hz.
  destruct (Z.eq_dec (Z.abs z) (2 ^ 53)) as [E|Hne].
  { assert (Hc : z = (2 ^ 53)%Z \/ z = (- 2 ^ 53)%Z) by lia.
    destruct Hc as [-> | ->]; vm_compute; reflexivity. }
  unfold binary64.
  rewrite Qred_integer.
  cbn [Qnum Qden inject_Z].
  destruct z as [|n|n]; [simpl; reflexivity| |];
    (rewrite SFdiv_integer by lia);
    destruct (size_bounds n) as [H1 H2];
    apply of_binary64_scaled;
    (split; [lia|]);
    (assert (Zpos (digits2_pos n) - 1 < 53)%Z; [|lia]);
    apply (Z.pow_lt_mono_r_iff 2); lia.
Qed.
(** *** Samples

    One tenth, a tie just past [2 ^ 53], overflow, and the two ties around
    the least subnormal [2 ^ -1074]. *)
Lemma binary64_samples :
  binary64 (1 # 10) = Finite (3602879701896397 # 36028797018963968) /\
  binary64 (inject_Z (2 ^ 53 + 1)) = Finite (inject_Z (2 ^ 53)) /\
  binary64 (inject_Z (2 ^ 53 + 3)) = Finite (inject_Z (2 ^ 53 + 4)) /\
  binary64 (inject_Z (2 ^ 1024)) = PosInfinity /\
  binary64 (- inject_Z (2 ^ 1024)) = NegInfinity /\
  binary64 (1 # 2 ^ 1075) = Finite 0 /\
  binary64 (3 # 2 ^ 1075) = Finite (1 # 2 ^ 1073).
Proof. vm_compute. repeat split. Qed.

End Binary64Facts.

(* ================================================================= *)
(** ** Facts about numbers *)

Module JsNumberFacts.
Import JsString JsNumber Binary64Facts.

Lemma Qltb_lt (a b : Q) : Qltb a b = true <-> a < b.
Proof.
  unfold Qltb. rewrite negb_true_iff. split; intros H.
  - apply Qnot_le_lt. intros L. apply Qle_bool_iff in L. congruence.
  - destruct (Qle_bool b a) eqn:E; [|reflexivity].
    apply Qle_bool_iff in E. exfalso. exact (Qlt_not_le _ _ H E).
Qed.

Lemma Qltb_ge (a b : Q) : Qltb a b = false <-> b <= a.
Proof.
  unfold Qltb. rewrite negb_false_iff. apply Qle_bool_iff.
Qed.

Lemma Qle_bool_false (a b : Q) : Qle_bool a b = false <-> b < a.
Proof.
  rewrite <- Qltb_lt. unfold Qltb. now rewrite negb_true_iff.
Qed.

(** Case analysis on numbers, comparisons turned into order facts on Q. *)
Ltac cases :=
  repeat match goal with
  | x : number |- _ => destruct x
  end;
  simpl in *; try congruence; try tauto.

Ltac order :=
  repeat match goal with
  | H : Qltb _ _ = true |- _ => apply Qltb_lt in H
  | H : Qltb _ _ = false |- _ => apply Qltb_ge in H
  | H : Qle_bool _ _ = true |- _ => apply Qle_bool_iff in H
  | H : Qle_bool _ _ = false |- _ => apply Qle_bool_false in H
  | |- Qltb _ _ = true => apply Qltb_lt
  | |- Qltb _ _ = false => apply Qltb_ge
  | |- Qle_bool _ _ = true => apply Qle_bool_iff
  | |- Qle_bool _ _ = false => apply Qle_bool_false
  end.

Lemma leb_refl (x : number) : x <> NaN -> leb x x = true.
Proof. intros H. cases. order. apply Qle_refl. Qed.

Lemma leb_trans (x y z : number) :
  leb x y = true -> leb y z = true -> leb x z = true.
Proof. intros H1 H2. cases. order. eapply Qle_trans; eauto. Qed.

Lemma ltb_leb (x y : number) : ltb x y = true -> leb x y = true.
Proof. intros H. cases. order. now apply Qlt_le_weak. Qed.

Lemma ltb_false_leb (x y : number) :
  x <> NaN -> y <> NaN -> ltb x y = false -> leb y x = true.
Proof. intros Hx Hy H. cases. now order. Qed.

Lemma ltb_not_leb (x y : number) : ltb x y = true -> leb y x = false.
Proof. intros H. cases. now order. Qed.

Lemma ltb_leb_trans (x y z : number) :
  ltb x y = true -> leb y z = true -> ltb x z = true.
Proof. intros H1 H2. cases. order. eapply Qlt_le_trans; eauto. Qed.

(** The comparator of the top-N handler: [b - a > 0] says [a < b]. *)
Lemma Qltb_minus (a b : Q) : Qltb 0 (b + - a) = Qltb a b.
Proof.
  destruct (Qltb a b) eqn:E; order; lra.
Qed.

Lemma sub_positive (x y : number) :
  x <> NaN -> y <> NaN -> gtb (sub y x) (Finite 0) = ltb x y.
Proof.
  intros Hx Hy. unfold gtb, sub. cases. apply Qltb_minus.
Qed.

(** *** [Math.max] and [Math.min] *)

Lemma max2_not_NaN (a x : number) : a <> NaN -> x <> NaN -> max2 a x <> NaN.
Proof. intros Ha Hx. unfold max2. cases; destruct (Qltb _ _); congruence. Qed.

Lemma min2_not_NaN (a x : number) : a <> NaN -> x <> NaN -> min2 a x <> NaN.
Proof. intros Ha Hx. unfold min2. cases; destruct (Qltb _ _); congruence. Qed.

Lemma max2_cases (a x : number) :
  a <> NaN -> x <> NaN ->
  (max2 a x = a /\ leb x a = true) \/ (max2 a x = x /\ leb a x = true).
Proof.
  intros Ha Hx.
  assert (E : max2 a x = if ltb a x then x else a) by (unfold max2; cases).
  rewrite E. destruct (ltb a x) eqn:L.
  - right. split; [reflexivity|]. now apply ltb_leb.
  - left. split; [reflexivity|]. now apply ltb_false_leb.
Qed.

Lemma min2_cases (a x : number) :
  a <> NaN -> x <> NaN ->
  (min2 a x = a /\ leb a x = true) \/ (min2 a x = x /\ leb x a = true).
Proof.
  intros Ha Hx.
  assert (E : min2 a x = if ltb x a then x else a) by (unfold min2; cases).
  rewrite E. destruct (ltb x a) eqn:L.
  - right. split; [reflexivity|]. now apply ltb_leb.
  - left. split; [reflexivity|]. now apply ltb_false_leb.
Qed.

(** Folding [max2]: the result is the start value or an element, and bounds
    both. *)
Lemma fold_max2 (xs : list number) (a : number) :
  a <> NaN -> Forall (fun x => x <> NaN) xs ->
  (fold_left max2 xs a = a \/ In (fold_left max2 xs a) xs) /\
  leb a (fold_left max2 xs a) = true /\
  forall x, In x xs -> leb x (fold_left max2 xs a) = true.
Proof.
  revert a. induction xs as [|x xs IH]; intros a Ha Hxs; simpl.
  - split; [now left|]. split; [now apply leb_refl|]. intros x [].
  - inversion Hxs as [|? ? Hx Hxs']; subst.
    destruct (IH (max2 a x) (max2_not_NaN Ha Hx) Hxs') as (Hin & Hle & Hall).
    destruct (max2_cases Ha Hx) as [[E L]|[E L]]; rewrite E in Hin, Hle, Hall |- *.
    + split; [tauto|]. split; [exact Hle|].
      intros y [<-|Hy]; [eapply leb_trans; eauto | auto].
    + split; [destruct Hin as [->|Hin]; auto|].
      split; [eapply leb_trans; eauto|].
      intros y [<-|Hy]; auto.
Qed.

Lemma fold_min2 (xs : list number) (a : number) :
  a <> NaN -> Forall (fun x => x <> NaN) xs ->
  (fold_left min2 xs a = a \/ In (fold_left min2 xs a) xs) /\
  leb (fold_left min2 xs a) a = true /\
  forall x, In x xs -> leb (fold_left min2 xs a) x = true.
Proof.
  revert a. induction xs as [|x xs IH]; intros a Ha Hxs; simpl.
  - split; [now left|]. split; [now apply leb_refl|]. intros x [].
  - inversion Hxs as [|? ? Hx Hxs']; subst.
    destruct (IH (min2 a x) (min2_not_NaN Ha Hx) Hxs') as (Hin & Hle & Hall).
    destruct (min2_cases Ha Hx) as [[E L]|[E L]]; rewrite E in Hin, Hle, Hall |- *.
    + split; [tauto|]. split; [exact Hle|].
      intros y [<-|Hy]; [eapply leb_trans; eauto | auto].
    + split; [destruct Hin as [->|Hin]; auto|].
      split; [eapply leb_trans; eauto|].
      intros y [<-|Hy]; auto.
Qed.

Lemma leb_NegInfinity (x : number) : x <> NaN -> leb x NegInfinity = true -> x = NegInfinity.
Proof. intros Hx H. cases. Qed.

Lemma leb_PosInfinity (x : number) : x <> NaN -> leb PosInfinity x = true -> x = PosInfinity.
Proof. intros Hx H. cases. Qed.

Lemma Math_max_spec (xs : list number) :
  xs <> [] -> Forall (fun x => x <> NaN) xs -> Spec.is_maximum (Math_max xs) xs.
Proof.
  intros Hne Hxs. unfold Math_max.
  destruct (@fold_max2 xs NegInfinity ltac:(discriminate) Hxs) as ([E|Hin] & _ & Hall).
  - destruct xs as [|x xs]; [congruence|].
    assert (Hx : x <> NaN) by now inversion Hxs.
    assert (L := Hall x (or_introl Logic.eq_refl)). rewrite E in L.
    apply (leb_NegInfinity Hx) in L. split; [|exact Hall].
    rewrite E, <- L. now left.
  - split; assumption.
Qed.

Lemma Math_min_spec (xs : list number) :
  xs <> [] -> Forall (fun x => x <> NaN) xs -> Spec.is_minimum (Math_min xs) xs.
Proof.
  intros Hne Hxs. unfold Math_min.
  destruct (@fold_min2 xs PosInfinity ltac:(discriminate) Hxs) as ([E|Hin] & _ & Hall).
  - destruct xs as [|x xs]; [congruence|].
    assert (Hx : x <> NaN) by now inversion Hxs.
    assert (L := Hall x (or_introl Logic.eq_refl)). rewrite E in L.
    apply (leb_PosInfinity Hx) in L. split; [|exact Hall].
    rewrite E, <- L. now left.
  - split; assumption.
Qed.

(** *** Sum and mean of finite values *)

Lemma binary64_Qeq (a b : Q) : a == b -> binary64 a = binary64 b.
Proof.
  intros H. unfold binary64. now rewrite (Qred_complete _ _ H).
Qed.

Lemma representable_Qeq (a b : Q) :
  a == b -> Spec.representable a -> Spec.representable b.
Proof.
  unfold Spec.representable. intros H. rewrite (binary64_Qeq H).
  destruct (binary64 b); simpl; try tauto. intros E. now rewrite E.
Qed.

Lemma representable_value (q : Q) :
  Spec.representable q -> exists q', binary64 q = Finite q' /\ q' == q.
Proof.
  unfold Spec.representable. destruct (binary64 q) as [| |q'|]; simpl;
    try tauto. intros E. now exists q'.
Qed.

(** When no running sum is rounded, the accumulated sum is the exact one. *)
Lemma fold_add_exact (qs : list Q) (a : Q) :
  (forall k, (k <= length qs)%nat ->
     Spec.representable (a + Spec.total (firstn k qs))) ->
  exists s, fold_left add (map Finite qs) (Finite a) = Finite s /\
            s == a + Spec.total qs.
Proof.
  revert a. induction qs as [|q qs IH]; intros a H.
  - exists a. split; [reflexivity|]. unfold Spec.total. simpl. ring.
  - assert (H1 : Spec.representable (a + q)).
    { apply (@representable_Qeq (a + Spec.total (firstn 1 (q :: qs)))).
      - unfold Spec.total. simpl. ring.
      - apply H. simpl. lia. }
    destruct (@representable_value _ H1) as (a' & E & Ha').
    cbn [map fold_left add]. rewrite E.
    destruct (IH a') as (s & Es & Hs).
    { intros k Hk.
      apply (@representable_Qeq (a + Spec.total (firstn (S k) (q :: qs)))).
      - unfold Spec.total. simpl. fold (Spec.total (firstn k qs)).
        rewrite Ha'. ring.
      - apply H. simpl. lia. }
    exists s. split; [exact Es|]. rewrite Hs, Ha'.
    unfold Spec.total. simpl. ring.
Qed.

Lemma fold_left_running_sum (xs : list number) (acc : number) :
  fold_left add xs acc = Spec.running_sum acc xs.
Proof.
  revert acc. induction xs as [|x xs IH]; intros acc; simpl; auto.
Qed.

(** When nothing is rounded, the average is the arithmetic mean. *)
Lemma average_exact (qs : list Q) :
  qs <> [] -> Spec.no_rounding qs ->
  equiv (div (fold_left add (map Finite qs) (Finite 0))
             (of_nat (length (map Finite qs))))
        (Finite (Spec.mean qs)).
Proof.
  intros Hne [Hsum Hmean].
  destruct (@fold_add_exact qs 0) as (s & E & Hs).
  { intros k Hk. apply (@representable_Qeq (Spec.total (firstn k qs)));
      [ring | now apply Hsum]. }
  rewrite E, length_map. unfold of_nat, div.
  destruct (Qeq_bool (inject_Z (Z.of_nat (length qs))) 0) eqn:Z0.
  - apply Qeq_bool_iff in Z0. exfalso.
    destruct qs as [|q qs]; [congruence|].
    unfold Qeq in Z0. simpl in Z0. lia.
  - rewrite (@binary64_Qeq _ (Spec.mean qs)); [exact Hmean|].
    unfold Spec.mean. rewrite Hs. now rewrite Qplus_0_l.
Qed.

End JsNumberFacts.

(* ================================================================= *)
(** ** Facts about the page tree *)

Module DomFacts.
Import JsString Dom.

Lemma node_nested_ind (P : node -> Prop) :
  (forall d, P (Text d)) ->
  (forall d, P (Comment d)) ->
  (forall name classes children,
     Forall P children -> P (Element name classes children)) ->
  forall n, P n.
Proof.
  intros HT HC HE. fix IH 1.
  intros [d|d|name classes children]; [apply HT | apply HC | apply HE].
  induction children as [|k children IHc]; constructor.
  - apply IH.
  - exact IHc.
Qed.

Lemma flat_map_nil {A B} (f : A -> list B) (l : list A) :
  (forall x, In x l -> f x = []) -> flat_map f l = [].
Proof.
  induction l as [|x l IH]; intros H; [reflexivity|]. simpl.
  rewrite (H x (or_introl Logic.eq_refl)), IH; auto.
  intros y Hy. apply H. now right.
Qed.

(** Below a node none of whose elements is selected, nothing is found. *)
Lemma find_below_none (tag cls inner : str) (n : node) :
  filter (fun k => has_name tag k && has_class cls k) (n :: descendants n) = [] ->
  find_below tag cls inner false n = [].
Proof.
  induction n as [d|d|name classes children IH] using node_nested_ind;
    try reflexivity.
  intros H. cbn [find_below]. cbn [andb app].
  cbn [filter] in H.
  destruct (has_name tag (Element name classes children) &&
            has_class cls (Element name classes children)) eqn:E;
    [discriminate|].
  cbn [orb]. apply flat_map_nil. intros k Hk.
  rewrite Forall_forall in IH. apply (IH k Hk).
  cbn [descendants] in H.
  destruct (filter _ (k :: descendants k)) as [|x rest] eqn:F; [reflexivity|].
  exfalso.
  assert (Hx : In x (filter (fun k0 => has_name tag k0 && has_class cls k0)
                        (flat_map (fun k0 => k0 :: descendants k0) children))).
  { apply filter_In.
    assert (Hin : In x (filter (fun k0 => has_name tag k0 && has_class cls k0)
                          (k :: descendants k))) by (rewrite F; now left).
    apply filter_In in Hin as [Hin Hp]. split; [|exact Hp].
    apply in_flat_map. now exists k. }
  rewrite H in Hx. contradiction.
Qed.

(** Rows come from selected tables only. *)
Lemma select_find_none (tag cls inner : str) (doc : document) :
  select tag cls doc = [] -> select_find tag cls inner doc = [].
Proof.
  unfold select, select_find. intros H. apply flat_map_nil. intros n Hn.
  apply find_below_none.
  destruct (filter _ (n :: descendants n)) as [|x rest] eqn:F; [reflexivity|].
  exfalso.
  assert (Hin : In x (filter (fun k => has_name tag k && has_class cls k)
                        (n :: descendants n))) by (rewrite F; now left).
  apply filter_In in Hin as [Hin Hp].
  assert (Hx : In x (filter (fun k => has_name tag k && has_class cls k)
                       (flat_map (fun k => k :: descendants k) doc))).
  { apply filter_In. split; [|exact Hp]. apply in_flat_map. now exists n. }
  rewrite H in Hx. contradiction.
Qed.

End DomFacts.

(* ================================================================= *)
(** ** The scraper *)

Module ScrapeFacts.
Import JsString JsNumber Dom Phivolcs Spec JsStringFacts.

Lemma parseMagnitude_not_NaN (s : str) : parseMagnitude s <> NaN.
Proof.
  unfold parseMagnitude. destruct (parseFloat s); simpl; discriminate.
Qed.

(** One turn of the loop either appends the Record of the row or leaves the
    array alone. *)
Lemma each_row_qualifies (earthquakes : list EarthquakeData) (row : node) :
  each_row earthquakes row =
  if qualifies row then earthquakes ++ [record_of row] else earthquakes.
Proof.
  unfold each_row, qualifies, record_of, date_time, column, cells, filled.
  cbv zeta. cbn [date time magnitude location].
  set (cols := find (lit "td") [row]).
  set (link := find (lit "a") (Dom.eq 0 cols)).
  rewrite Nat.ltb_antisym, truthy_trim_collapse.
  destruct (6 <=? length cols); cbn [negb andb]; [|reflexivity].
  destruct link; reflexivity.
Qed.

Lemma fold_each_row (rows : list node) (earthquakes : list EarthquakeData) :
  fold_left each_row rows earthquakes =
  earthquakes ++ map record_of (filter qualifies rows).
Proof.
  revert earthquakes. induction rows as [|row rows IH]; intros acc; simpl.
  - now rewrite app_nil_r.
  - rewrite IH, each_row_qualifies.
    destruct (qualifies row); simpl; [|reflexivity].
    now rewrite <- app_assoc.
Qed.

Lemma truthy_true (s : str) : JsString.truthy s = true -> s <> [].
Proof. destruct s; simpl; congruence. Qed.

Lemma record_of_required (row : node) :
  qualifies row = true -> required_fields (record_of row).
Proof.
  unfold qualifies, filled, required_fields, record_of.
  cbn [date time magnitude location]. intros H.
  apply andb_true_iff in H as [H Hloc].
  apply andb_true_iff in H as [H Hmag].
  apply andb_true_iff in H as [H Htime].
  apply andb_true_iff in H as [_ Hdate].
  rewrite <- truthy_trim_collapse in Hloc.
  repeat split; now apply truthy_true.
Qed.

Lemma record_of_derived (row : node) : derived_magnitude (record_of row).
Proof. reflexivity. Qed.

(** The scraper in one equation. *)
Lemma scrape_eq (page : document) :
  scrape page =
  match select (lit "table") (lit "MsoNormalTable") page with
  | [] => Throw table_not_found
  | _ :: _ =>
      match map record_of (filter qualifies (table_rows page)) with
      | [] => Throw no_valid_data
      | records => Return records
      end
  end.
Proof.
  unfold scrape. rewrite fold_each_row. simpl.
  destruct (select _ _ page); simpl; [reflexivity|].
  destruct (map record_of _); reflexivity.
Qed.

(** C3. When the data table of the page has at least one qualifying row,
    extraction returns a non-empty sequence with one Record per qualifying
    row (at least 6 cells; date, time, magnitude and location non-empty
    after trimming), in row order; all other rows leave no trace, and every
    Record has its four required fields. *)
Theorem scrape_qualifying_rows (page : document) :
  (exists row, In row (table_rows page) /\ qualifies row = true) ->
  exists records,
    scrape page = Return records /\
    records <> [] /\
    length records = length (filter qualifies (table_rows page)) /\
    records = map record_of (filter qualifies (table_rows page)) /\
    Forall required_fields records.
Proof.
  intros (row & Hin & Hq).
  exists (map record_of (filter qualifies (table_rows page))).
  assert (Hne : map record_of (filter qualifies (table_rows page)) <> []).
  { intros E. apply map_eq_nil in E.
    assert (In row (filter qualifies (table_rows page)))
      by (apply filter_In; auto).
    rewrite E in H. contradiction. }
  split; [|split; [exact Hne|split; [apply length_map|split; [reflexivity|]]]].
  - rewrite scrape_eq.
    destruct (select _ _ page) eqn:Htable.
    + apply (DomFacts.select_find_none _ _ (lit "tr")) in Htable.
      unfold table_rows in Hin. rewrite Htable in Hin. contradiction.
    + destruct (map record_of _); congruence.
  - apply Forall_forall. intros r Hr. apply in_map_iff in Hr as (w & <- & Hw).
    apply filter_In in Hw as [_ Hw]. now apply record_of_required.
Qed.

Lemma scrape_qualifying_rows_witness :
  exists records,
    scrape Fixture.page_good = Return records /\
    records <> [] /\
    length records = length (filter qualifies (table_rows Fixture.page_good)) /\
    records = map record_of (filter qualifies (table_rows Fixture.page_good)) /\
    Forall required_fields records.
Proof.
  apply (@scrape_qualifying_rows Fixture.page_good).
  exists (Fixture.tr "12 May 2024 - 09:05 AM" "07.02" "125.60" "5 km" "5.8" "Davao").
  split; [vm_compute; tauto | vm_compute; reflexivity].
Defined.

(** C4. Without the data table extraction fails with the table-not-found
    error; with the table but no qualifying row it fails with the
    no-valid-data error; it never returns an empty sequence. *)
Theorem scrape_failures (page : document) :
  (select (lit "table") (lit "MsoNormalTable") page = [] ->
   scrape page = Throw table_not_found) /\
  (select (lit "table") (lit "MsoNormalTable") page <> [] ->
   (forall row, In row (table_rows page) -> qualifies row = false) ->
   scrape page = Throw no_valid_data) /\
  scrape page <> Return [].
Proof.
  rewrite scrape_eq. repeat split.
  - now intros ->.
  - intros Htable Hnone.
    destruct (select _ _ page); [congruence|].
    replace (filter qualifies (table_rows page)) with (@nil node); [reflexivity|].
    symmetry. induction (table_rows page) as [|row rows IH]; [reflexivity|].
    simpl. rewrite (Hnone row (or_introl Logic.eq_refl)).
    apply IH. intros r Hr. apply Hnone. now right.
  - destruct (select _ _ page); [discriminate|].
    destruct (map record_of _); discriminate.
Qed.

Lemma scrape_failures_witness :
  scrape Fixture.page_no_table = Throw table_not_found /\
  scrape Fixture.page_empty_table = Throw no_valid_data /\
  scrape Fixture.page_good <> Return [].
Proof.
  split; [|split].
  - apply (proj1 (scrape_failures Fixture.page_no_table)). reflexivity.
  - apply (proj1 (proj2 (scrape_failures Fixture.page_empty_table))).
    + vm_compute. discriminate.
    + vm_compute. intros row [<-|[]]. reflexivity.
  - apply (proj2 (proj2 (scrape_failures Fixture.page_good))).
Defined.

(** Whatever the scraper returns satisfies the Record invariants. *)
Lemma scrape_records (page : document) (records : list EarthquakeData) :
  scrape page = Return records ->
  records <> [] /\
  Forall (fun r => required_fields r /\ derived_magnitude r) records.
Proof.
  rewrite scrape_eq. intros H.
  destruct (select _ _ page); [discriminate|].
  destruct (map record_of _) eqn:E; [discriminate|].
  injection H as <-. split; [discriminate|].
  rewrite <- E. apply Forall_forall. intros r Hr.
  apply in_map_iff in Hr as (w & <- & Hw).
  apply filter_In in Hw as [_ Hw].
  split; [now apply record_of_required | apply record_of_derived].
Qed.

End ScrapeFacts.

(* ================================================================= *)
(** ** The cache *)

Module CacheFacts.
Import JsString JsNumber Dom Phivolcs Spec.

Lemma enter_hit (forceRefresh : bool) (now : Z) (cache : option CacheEntry)
    (cached : list EarthquakeData) :
  fetchEarthquakes_enter forceRefresh now cache = Some cached <->
  forceRefresh = false /\
  exists entry, cache = Some entry /\ cached = data entry /\
                (now - timestamp entry < CACHE_TTL_MS)%Z.
Proof.
  unfold fetchEarthquakes_enter, isCacheValid.
  destruct forceRefresh, cache as [entry|]; simpl; split;
    try discriminate; try (intros [? _]; discriminate);
    try (intros [_ (? & ? & _)]; discriminate).
  - destruct (Z.ltb_spec (now - timestamp entry) CACHE_TTL_MS); [|discriminate].
    intros [= <-]. split; [reflexivity|]. now exists entry.
  - intros [_ (e & [= <-] & -> & Hlt)].
    apply Z.ltb_lt in Hlt. now rewrite Hlt.
Qed.

Lemma enter_valid (now : Z) (cache : option CacheEntry) :
  isCacheValid now cache = true ->
  exists entry, cache = Some entry /\
                fetchEarthquakes_enter false now cache = Some (data entry).
Proof.
  unfold fetchEarthquakes_enter. intros H. rewrite H. simpl.
  destruct cache as [entry|]; [now exists entry | discriminate].
Qed.

Lemma enter_invalid (forceRefresh : bool) (now : Z) (cache : option CacheEntry) :
  isCacheValid now cache = false ->
  fetchEarthquakes_enter forceRefresh now cache = None.
Proof.
  unfold fetchEarthquakes_enter. intros ->. now rewrite andb_false_r.
Qed.

(** When the attempt fails, the continuation after the [await] serves what
    the cache variable holds at that moment, or rethrows. *)
Lemma resume_failure (r : reply) (e : exn) (now : Z) (cache : option CacheEntry) :
  attempt r = Throw e ->
  fetchEarthquakes_resume r now cache =
  match cache with
  | Some entry => (Return (data entry), Some entry)
  | None => (Throw e, None)
  end.
Proof.
  unfold fetchEarthquakes_resume. intros ->. now destruct cache.
Qed.

Lemma resume_success (r : reply) (records : list EarthquakeData) (now : Z)
    (cache : option CacheEntry) :
  attempt r = Return records ->
  fetchEarthquakes_resume r now cache =
  (Return records, Some {| data := records; timestamp := now |}).
Proof. unfold fetchEarthquakes_resume. now intros ->. Qed.

(** C1. When the fetch-and-extract attempt of a call fails: if the cache
    holds a snapshot, the call returns that snapshot's records, does not
    throw, and leaves the cache slot as it was; if the cache is empty, the
    call throws the failure of the attempt.  This holds for the continuation
    after the [await], whatever the cache holds by then, and so for a call
    that runs alone. *)
Theorem fetch_failure_falls_back (r : reply) (e : exn) :
  attempt r = Throw e ->
  (forall now cache,
     fetchEarthquakes_resume r now cache =
     match cache with
     | Some entry => (Return (data entry), Some entry)
     | None => (Throw e, None)
     end) /\
  (forall forceRefresh now now' st,
     fetchEarthquakes_enter forceRefresh now (earthquakeCache st) = None ->
     fetchEarthquakes forceRefresh now r now' st =
     match earthquakeCache st with
     | Some entry =>
         (Return (data entry),
          {| earthquakeCache := Some entry; requests := S (requests st) |})
     | None =>
         (Throw e, {| earthquakeCache := None; requests := S (requests st) |})
     end).
Proof.
  intros Hfail. split.
  - intros now cache. now apply resume_failure.
  - intros forceRefresh now now' st Henter. unfold fetchEarthquakes.
    rewrite Henter, (@resume_failure r e now' (earthquakeCache st) Hfail).
    now destruct (earthquakeCache st).
Qed.

Lemma fetch_failure_falls_back_witness :
  (fetchEarthquakes false 400000 (Rejected Fixture.network_down) 400100
     {| earthquakeCache := Some Fixture.old_entry; requests := 1%nat |}
   = (Return Fixture.three,
      {| earthquakeCache := Some Fixture.old_entry; requests := 2%nat |})) /\
  (fetchEarthquakes true 0 (Resolved Fixture.page_no_table) 100 initial
   = (Throw table_not_found, {| earthquakeCache := None; requests := 1%nat |})).
Proof.
  split.
  - apply (proj2 (@fetch_failure_falls_back (Rejected Fixture.network_down)
                    Fixture.network_down Logic.eq_refl)
             false 400000%Z 400100%Z
             {| earthquakeCache := Some Fixture.old_entry; requests := 1%nat |}).
    reflexivity.
  - apply (proj2 (@fetch_failure_falls_back (Resolved Fixture.page_no_table)
                    table_not_found Logic.eq_refl)
             true 0%Z 100%Z initial).
    reflexivity.
Defined.

(** C5. Without [forceRefresh], a cached snapshot younger than the TTL is
    returned at once and no request is made.  Hence, of two such calls run
    one after the other, the second one makes no request when it falls in
    the TTL window of the snapshot the first one leaves; when the first one
    had to fetch, the two calls make exactly one request. *)
Theorem fetch_within_ttl (st : state) (t1 t1' t2 t2' : Z) (r1 r2 : reply) :
  CACHE_TTL_MS = 300000%Z /\
  (forall entry,
     earthquakeCache st = Some entry ->
     (t1 - timestamp entry < CACHE_TTL_MS)%Z ->
     fetchEarthquakes false t1 r1 t1' st = (Return (data entry), st)) /\
  (let st1 := snd (fetchEarthquakes false t1 r1 t1' st) in
   let second := fetchEarthquakes false t2 r2 t2' st1 in
   isCacheValid t2 (earthquakeCache st1) = true ->
   snd second = st1 /\
   (exists snapshot, earthquakeCache st1 = Some snapshot /\
                     fst second = Return (data snapshot)) /\
   (isCacheValid t1 (earthquakeCache st) = false ->
    requests (snd second) = S (requests st))).
Proof.
  split; [reflexivity|]. split.
  - intros entry Hc Hage. unfold fetchEarthquakes.
    assert (E : fetchEarthquakes_enter false t1 (earthquakeCache st)
                = Some (data entry)).
    { apply enter_hit. split; [reflexivity|]. now exists entry. }
    now rewrite E.
  - intros st1 second Hvalid.
    destruct (@enter_valid _ _ Hvalid) as (snapshot & Hs & Hhit).
    assert (E2 : second = (Return (data snapshot), st1)).
    { unfold second, fetchEarthquakes. now rewrite Hhit. }
    rewrite E2. simpl.
    split; [reflexivity|]. split; [now exists snapshot|].
    intros Hinvalid. unfold st1, fetchEarthquakes.
    rewrite (@enter_invalid false _ _ Hinvalid).
    now destruct (fetchEarthquakes_resume r1 t1' (earthquakeCache st)).
Qed.

Lemma fetch_within_ttl_witness :
  fetchEarthquakes false 1200 (Rejected Fixture.network_down) 1300
    {| earthquakeCache := Some Fixture.old_entry; requests := 1%nat |}
  = (Return Fixture.three,
     {| earthquakeCache := Some Fixture.old_entry; requests := 1%nat |}) /\
  requests
    (snd (fetchEarthquakes false 200000 (Rejected Fixture.network_down) 200100
       (snd (fetchEarthquakes false 0 (Resolved Fixture.page_good) 100 initial))))
  = 1%nat.
Proof.
  split.
  - apply (proj1 (proj2 (@fetch_within_ttl
                    {| earthquakeCache := Some Fixture.old_entry; requests := 1%nat |}
                    1200 1300 0 0
                    (Rejected Fixture.network_down)
                    (Rejected Fixture.network_down))) Fixture.old_entry).
    + reflexivity.
    + vm_compute. reflexivity.
  - apply (proj2 (proj2 (@fetch_within_ttl initial
                    0 100 200000 200100 (Resolved Fixture.page_good)
                    (Rejected Fixture.network_down)))).
    + vm_compute. reflexivity.
    + reflexivity.
Defined.

(** *** What the cache hands out

    Every sequence that leaves [fetchEarthquakes], in any interleaving of
    calls and replies, is non-empty and made of well-formed Records; their
    [magnitudeNumeric] is therefore never [NaN]. *)

Lemma well_formed_number (r : EarthquakeData) :
  well_formed r -> magnitudeNumeric r <> NaN.
Proof.
  intros [_ H]. rewrite H. apply ScrapeFacts.parseMagnitude_not_NaN.
Qed.

Lemma servable_numbers (records : list EarthquakeData) :
  servable records -> Forall (fun r => magnitudeNumeric r <> NaN) records.
Proof.
  intros [_ H]. eapply Forall_impl; [|exact H]. apply well_formed_number.
Qed.

Lemma attempt_servable (r : reply) (records : list EarthquakeData) :
  attempt r = Return records -> servable records.
Proof.
  destruct r as [e|page]; simpl; [discriminate|].
  intros H. apply ScrapeFacts.scrape_records in H. exact H.
Qed.

Lemma resume_ok (r : reply) (now : Z) (cache : option CacheEntry) :
  snapshot_ok cache ->
  snapshot_ok (snd (fetchEarthquakes_resume r now cache)) /\
  forall records,
    fst (fetchEarthquakes_resume r now cache) = Return records ->
    servable records.
Proof.
  intros Hc. unfold fetchEarthquakes_resume.
  destruct (attempt r) as [records|e] eqn:E.
  - apply attempt_servable in E. simpl. split; [exact E|].
    now intros ? [= <-].
  - destruct cache as [entry|]; simpl; split; auto.
    + now intros ? [= <-].
    + discriminate.
Qed.

Lemma enter_ok (forceRefresh : bool) (now : Z) (cache : option CacheEntry)
    (cached : list EarthquakeData) :
  snapshot_ok cache ->
  fetchEarthquakes_enter forceRefresh now cache = Some cached ->
  servable cached.
Proof.
  intros Hc H. apply enter_hit in H as (_ & entry & -> & -> & _). exact Hc.
Qed.

Lemma step_ok (sys : system) (ev : event) :
  served_ok sys -> served_ok (step sys ev).
Proof.
  intros [Hc Hf]. destruct ev as [caller forceRefresh now|caller r now]; simpl.
  - destruct (fetchEarthquakes_enter forceRefresh now _) as [cached|] eqn:E.
    + split; [exact Hc|]. simpl. intros c records Hin.
      apply in_app_or in Hin as [Hin|[[= <- <-]|[]]]; [eauto|].
      eapply enter_ok; eauto.
    + split; [exact Hc | exact Hf].
  - destruct (existsb _ _); [|split; assumption].
    destruct (@resume_ok r now _ Hc) as [Hc' Hres].
    destruct (fetchEarthquakes_resume r now _) as [res cache'].
    split; [exact Hc'|]. simpl. intros c records Hin.
    apply in_app_or in Hin as [Hin|[[= _ Er]|[]]]; [eauto|].
    apply Hres. exact Er.
Qed.

Lemma run_ok (evs : list event) (sys : system) :
  served_ok sys -> served_ok (run sys evs).
Proof.
  revert sys. induction evs as [|ev evs IH]; intros sys H; [exact H|].
  apply IH, step_ok, H.
Qed.

Lemma served_numbers (evs : list event) (caller : nat)
    (records : list EarthquakeData) :
  In (caller, Return records) (finished (run boot evs)) ->
  records <> [] /\ Forall (fun r => magnitudeNumeric r <> NaN) records.
Proof.
  intros Hin.
  assert (H : served_ok (run boot evs)).
  { apply run_ok. split; [exact I|]. intros ? ? []. }
  destruct H as [_ H]. specialize (H _ _ Hin).
  split; [apply H | now apply servable_numbers].
Qed.

(** *** Overlapping calls *)

(** Callers that enter while the cache is empty each issue a request. *)
Lemma run_calls_empty (callers : list nat) (now : Z) (sys : system) :
  earthquakeCache (sys_state sys) = None ->
  run sys (map (fun caller => Call caller false now) callers) =
  {| sys_state := {| earthquakeCache := None;
                     requests := length callers + requests (sys_state sys) |};
     waiting := waiting sys ++ callers;
     finished := finished sys |}.
Proof.
  revert sys. induction callers as [|c callers IH]; intros sys Hc.
  - simpl. rewrite app_nil_r. destruct sys as [[cache n] w f].
    simpl in *. now subst.
  - cbn [map run fold_left]. fold (run (step sys (Call c false now))
      (map (fun caller => Call caller false now) callers)).
    assert (E : step sys (Call c false now) =
                {| sys_state := {| earthquakeCache := None;
                                   requests := S (requests (sys_state sys)) |};
                   waiting := waiting sys ++ [c];
                   finished := finished sys |}).
    { unfold step, fetchEarthquakes_enter. rewrite Hc. reflexivity. }
    rewrite E, IH by reflexivity. cbn [sys_state requests waiting finished].
    rewrite <- app_assoc. cbn [length app]. now rewrite Nat.add_succ_r.
Qed.

Lemma step_reply (sys : system) (caller : nat) (r : reply) (now : Z) :
  In caller (waiting sys) ->
  finished (step sys (Reply caller r now)) =
  finished sys ++
  [(caller, fst (fetchEarthquakes_resume r now (earthquakeCache (sys_state sys))))]
  /\ requests (sys_state (step sys (Reply caller r now)))
     = requests (sys_state sys).
Proof.
  intros Hin. unfold step.
  assert (E : existsb (Nat.eqb caller) (waiting sys) = true).
  { apply existsb_exists. exists caller. split; [exact Hin|apply Nat.eqb_refl]. }
  rewrite E.
  destruct (fetchEarthquakes_resume r now (earthquakeCache (sys_state sys))).
  split; reflexivity.
Qed.

(** C10, as the code has it.  Nothing coordinates refreshes: [n] callers
    entering together against the empty cache make [n] upstream requests and
    all wait; a waiting caller whose own reply yields records receives those
    records, and handling a reply makes no further request. *)
Theorem burst_requests (n : nat) (now : Z) :
  run boot (burst n now) =
  {| sys_state := {| earthquakeCache := None; requests := n |};
     waiting := seq 0 n;
     finished := [] |}
  /\
  forall sys caller r t records,
    In caller (waiting sys) ->
    attempt r = Return records ->
    finished (step sys (Reply caller r t)) =
      finished sys ++ [(caller, Return records)] /\
    requests (sys_state (step sys (Reply caller r t))) = requests (sys_state sys).
Proof.
  split.
  - unfold burst. rewrite run_calls_empty by reflexivity.
    cbn [boot sys_state initial requests waiting finished app].
    now rewrite length_seq, Nat.add_0_r.
  - intros sys caller r t records Hin Hok.
    destruct (@step_reply sys caller r t Hin) as [Hf Hr].
    rewrite Hf, (@resume_success r records t _ Hok). now split.
Qed.

Lemma burst_requests_witness :
  requests (sys_state (run boot (burst 50 0))) = 50%nat /\
  finished (step (run boot (burst 2 0)) (Reply 1 (Resolved Fixture.page_good) 100))
  = [(1%nat, scrape Fixture.page_good)].
Proof.
  split.
  - now rewrite (proj1 (burst_requests 50 0)).
  - destruct (proj2 (burst_requests 0 0) (run boot (burst 2 0)) 1%nat
                (Resolved Fixture.page_good) 100%Z
                (map record_of (filter qualifies (table_rows Fixture.page_good))))
      as [Hf _].
    + vm_compute. tauto.
    + vm_compute. reflexivity.
    + rewrite Hf. vm_compute. reflexivity.
Defined.

(** C10, as the specification states it, fails: 50 simultaneous calls
    against the empty cache make 50 requests, not one. *)
Lemma burst_not_single_flight : ~ single_flight 50.
Proof.
  intros H. specialize (H 0%Z). vm_compute in H. discriminate H.
Qed.

End CacheFacts.

(* ================================================================= *)
(** ** The query helpers *)

Module QueryFacts.
Import JsString JsNumber Dom Phivolcs Spec JsStringFacts JsNumberFacts.

(** *** [filterByMagnitude] *)

(** With the upper bound absent, or present and neither zero nor [NaN], the
    filter keeps the records between the bounds. *)
Lemma filterByMagnitude_bounds (earthquakes : list EarthquakeData)
    (minMag : number) (maxMag : option number) (r : EarthquakeData) :
  (forall m, maxMag = Some m -> JsNumber.truthy m = true) ->
  In r (filterByMagnitude earthquakes minMag maxMag) <->
  In r earthquakes /\
  geb (magnitudeNumeric r) minMag = true /\
  (forall m, maxMag = Some m -> leb (magnitudeNumeric r) m = true).
Proof.
  intros Hmax. unfold filterByMagnitude. rewrite filter_In, andb_true_iff.
  destruct maxMag as [m|].
  - rewrite (Hmax m Logic.eq_refl). simpl. split.
    + intros (Hin & Hmin & Hle). repeat split; auto. now intros ? [= <-].
    + intros (Hin & Hmin & Hle). repeat split; auto.
  - split.
    + intros (Hin & Hmin & _). repeat split; auto. discriminate.
    + intros (Hin & Hmin & _). repeat split; auto.
Qed.

(** A falsy upper bound is taken as no bound at all. *)
Lemma filterByMagnitude_falsy_max (earthquakes : list EarthquakeData)
    (minMag m : number) :
  JsNumber.truthy m = false ->
  filterByMagnitude earthquakes minMag (Some m) =
  filterByMagnitude earthquakes minMag None.
Proof.
  intros H. unfold filterByMagnitude. apply filter_ext. intros r.
  now rewrite H.
Qed.

(** C2, the case [max = 0]: with [min = 0] and [max = 0] the filter keeps the
    three fixture records, of magnitudes 4.5, 5.8 and 2.1, none of which is at
    most 0; the request [?min_magnitude=0&max_magnitude=0] reaches that
    case. *)
Theorem filterByMagnitude_max_zero :
  filterByMagnitude Fixture.three (Finite 0) (Some (Finite 0)) = Fixture.three /\
  Forall (fun r => leb (magnitudeNumeric r) (Finite 0) = false) Fixture.three /\
  filter_query Fixture.three (Some (lit "0")) (Some (lit "0")) None = Fixture.three.
Proof.
  split; [reflexivity|]. split; [repeat constructor | reflexivity].
Qed.

(** *** [filterByLocation] *)

Lemma recased_lower (s t : str) : recased s t -> ci_equal s t.
Proof.
  unfold ci_equal. induction 1 as [|a b s t Hab _ IH]; [reflexivity|].
  simpl. rewrite IH. f_equal.
  destruct Hab as [->|[->| ->]]; auto using lower_char_idem.
Qed.

Lemma includes_lower (hay needle : str) :
  includes (toLowerCase hay) (toLowerCase needle) = true <->
  contains_ci hay needle.
Proof.
  rewrite includes_spec. unfold contains_ci, ci_equal. split.
  - intros (pre & post & E). unfold toLowerCase in E.
    apply map_eq_app in E as (pre' & rest & -> & _ & E).
    apply map_eq_app in E as (mid & post' & -> & E & _).
    now exists pre', mid, post'.
  - intros (pre & mid & post & -> & E).
    exists (toLowerCase pre), (toLowerCase post).
    now rewrite !toLowerCase_app, E.
Qed.

(** C9. [filterByLocation] keeps, in order, exactly the records whose
    location contains the search string under case-insensitive comparison;
    two casings of one search string give the same result. *)
Theorem filterByLocation_case_insensitive
    (earthquakes : list EarthquakeData) (search : str) :
  (exists keep,
     filterByLocation earthquakes search = filter keep earthquakes /\
     forall r, keep r = true <-> contains_ci (location r) search) /\
  (forall search', recased search search' ->
     filterByLocation earthquakes search' = filterByLocation earthquakes search).
Proof.
  split.
  - exists (fun r => includes (toLowerCase (location r)) (toLowerCase search)).
    split; [reflexivity|]. intros r. apply includes_lower.
  - intros search' H. unfold filterByLocation.
    now rewrite (recased_lower H).
Qed.

Lemma filterByLocation_case_insensitive_witness :
  filterByLocation Fixture.five (lit "batangas") =
  filterByLocation Fixture.five (lit "BATANGAS").
Proof.
  apply (proj2 (filterByLocation_case_insensitive Fixture.five (lit "BATANGAS"))).
  repeat (constructor; [vm_compute; tauto|]). constructor.
Defined.

End QueryFacts.

(* ================================================================= *)
(** ** Top N by magnitude *)

Module TopFacts.
Import JsString JsNumber Dom Phivolcs Spec JsNumberFacts.

Lemma sub_positive_lt (x y : number) :
  gtb (sub y x) (Finite 0) = true -> ltb x y = true.
Proof.
  unfold gtb, sub. intros H. cases. now rewrite <- Qltb_minus.
Qed.

Lemma by_magnitude_after (x y : EarthquakeData) :
  gtb (by_magnitude x y) (Finite 0) = true ->
  ltb (magnitudeNumeric x) (magnitudeNumeric y) = true.
Proof. apply sub_positive_lt. Qed.

Lemma by_magnitude_before (x y : EarthquakeData) :
  magnitudeNumeric x <> NaN -> magnitudeNumeric y <> NaN ->
  gtb (by_magnitude x y) (Finite 0) = false ->
  geb (magnitudeNumeric x) (magnitudeNumeric y) = true.
Proof.
  unfold by_magnitude, geb. intros Hx Hy H.
  rewrite sub_positive in H by assumption. now apply ltb_false_leb.
Qed.

Lemma insert_cons (x y : EarthquakeData) (l : list EarthquakeData) :
  insert by_magnitude x (y :: l) =
  if gtb (by_magnitude x y) (Finite 0)
  then y :: insert by_magnitude x l else x :: y :: l.
Proof. reflexivity. Qed.

Lemma sort_cons (x : EarthquakeData) (l : list EarthquakeData) :
  sort by_magnitude (x :: l) = insert by_magnitude x (sort by_magnitude l).
Proof. reflexivity. Qed.

Lemma insert_perm (x : EarthquakeData) (l : list EarthquakeData) :
  Permutation (insert by_magnitude x l) (x :: l).
Proof.
  induction l as [|y l IH]; [reflexivity|]. rewrite insert_cons.
  destruct (gtb (by_magnitude x y) (Finite 0)); [|reflexivity].
  rewrite IH. apply perm_swap.
Qed.

Lemma sort_perm (l : list EarthquakeData) : Permutation (sort by_magnitude l) l.
Proof.
  induction l as [|x l IH]; [reflexivity|].
  rewrite sort_cons, insert_perm. now constructor.
Qed.

Lemma ge_mag_trans (a b c : EarthquakeData) :
  ge_mag a b -> ge_mag b c -> ge_mag a c.
Proof. unfold ge_mag, geb. intros H1 H2. eapply leb_trans; eauto. Qed.

Lemma insert_HdRel (y x : EarthquakeData) (l : list EarthquakeData) :
  ge_mag y x -> HdRel ge_mag y l -> HdRel ge_mag y (insert by_magnitude x l).
Proof.
  intros Hyx Hl. destruct l as [|z l].
  - now constructor.
  - rewrite insert_cons. destruct (gtb (by_magnitude x z) (Finite 0)); constructor; auto.
    now inversion Hl.
Qed.

Lemma insert_sorted (x : EarthquakeData) (l : list EarthquakeData) :
  magnitudeNumeric x <> NaN ->
  Forall (fun r => magnitudeNumeric r <> NaN) l ->
  Sorted ge_mag l -> Sorted ge_mag (insert by_magnitude x l).
Proof.
  intros Hx Hl Hs. induction Hs as [|y l Hs IH Hd].
  - repeat constructor.
  - inversion Hl as [|? ? Hy Hl']; subst. rewrite insert_cons.
    destruct (gtb (by_magnitude x y) (Finite 0)) eqn:E.
    + constructor; [now apply IH|].
      apply insert_HdRel; [|exact Hd].
      apply by_magnitude_after in E. unfold ge_mag, geb. now apply ltb_leb.
    + constructor; [now constructor|].
      constructor. now apply by_magnitude_before.
Qed.

Lemma sort_sorted (l : list EarthquakeData) :
  Forall (fun r => magnitudeNumeric r <> NaN) l ->
  Sorted ge_mag (sort by_magnitude l).
Proof.
  induction 1 as [|x l Hx Hl IH]; [constructor|].
  rewrite sort_cons. apply insert_sorted; auto.
  eapply Permutation_Forall; [|exact Hl]. symmetry. apply sort_perm.
Qed.

Lemma sort_descending (l : list EarthquakeData) :
  Forall (fun r => magnitudeNumeric r <> NaN) l ->
  descending (sort by_magnitude l).
Proof.
  intros H. apply Sorted_StronglySorted; [|now apply sort_sorted].
  intros a b c. apply ge_mag_trans.
Qed.

Lemma descending_prefix (l1 l2 : list EarthquakeData) :
  descending (l1 ++ l2) -> descending l1.
Proof.
  unfold descending. induction l1 as [|x l1 IH]; simpl; intros H.
  - constructor.
  - inversion H as [|? ? Hs Hf]; subst. constructor; [now apply IH|].
    apply Forall_app in Hf. tauto.
Qed.

(** Stability: inserting [x] passes over records of other magnitudes only. *)
Lemma insert_same_value (m : number) (x : EarthquakeData)
    (l : list EarthquakeData) :
  filter (fun r => same_value m (magnitudeNumeric r)) (insert by_magnitude x l) =
  filter (fun r => same_value m (magnitudeNumeric r)) (x :: l).
Proof.
  induction l as [|y l IH]; [reflexivity|].
  rewrite insert_cons.
  destruct (gtb (by_magnitude x y) (Finite 0)) eqn:E; [|reflexivity].
  apply by_magnitude_after in E.
  cbn [filter] in *. rewrite IH.
  destruct (same_value m (magnitudeNumeric x)) eqn:Sx; [|reflexivity].
  destruct (same_value m (magnitudeNumeric y)) eqn:Sy; [|reflexivity].
  exfalso. unfold same_value in Sx, Sy.
  apply andb_true_iff in Sx as [_ Sx]. apply andb_true_iff in Sy as [Sy _].
  pose proof (leb_trans _ _ _ Sy Sx) as L.
  apply ltb_not_leb in E. congruence.
Qed.

Lemma sort_same_value (m : number) (l : list EarthquakeData) :
  filter (fun r => same_value m (magnitudeNumeric r)) (sort by_magnitude l) =
  filter (fun r => same_value m (magnitudeNumeric r)) l.
Proof.
  induction l as [|x l IH]; [reflexivity|].
  rewrite sort_cons, insert_same_value. cbn [filter]. now rewrite IH.
Qed.

(** C6. For a valid count and records whose [magnitudeNumeric] is a number,
    the top-by-magnitude result is in descending order of [magnitudeNumeric],
    has [min count (length records)] elements, is a multiset subset of the
    input, and is stable: the records of any one magnitude come in their
    original order, the earliest ones first. *)
Theorem top_by_magnitude (earthquakes : list EarthquakeData) (count : nat) :
  count_valid count = true ->
  Forall (fun r => magnitudeNumeric r <> NaN) earthquakes ->
  let top := topEarthquakes earthquakes count in
  descending top /\
  length top = Nat.min count (length earthquakes) /\
  multiset_subset top earthquakes /\
  forall m, exists later,
    filter (fun r => same_value m (magnitudeNumeric r)) earthquakes =
    filter (fun r => same_value m (magnitudeNumeric r)) top ++ later.
Proof.
  intros _ Hnum top. unfold top, topEarthquakes.
  set (sorted := sort by_magnitude earthquakes).
  assert (Hsplit : firstn count sorted ++ skipn count sorted = sorted)
    by apply firstn_skipn.
  repeat split.
  - apply descending_prefix with (l2 := skipn count sorted).
    rewrite Hsplit. now apply sort_descending.
  - rewrite length_firstn. f_equal.
    apply Permutation_length, sort_perm.
  - exists (skipn count sorted). rewrite Hsplit. apply sort_perm.
  - intros m.
    exists (filter (fun r => same_value m (magnitudeNumeric r))
                   (skipn count sorted)).
    rewrite <- filter_app, Hsplit. symmetry. apply sort_same_value.
Qed.

Lemma top_by_magnitude_witness :
  map location (topEarthquakes Fixture.five 3) =
    [lit "Davao"; lit "Surigao"; lit "Batangas"] /\
  descending (topEarthquakes Fixture.five 3) /\
  length (topEarthquakes Fixture.five 3) = 3%nat.
Proof.
  split; [reflexivity|].
  destruct (@top_by_magnitude Fixture.five 3) as (Hd & Hl & _).
  - reflexivity.
  - repeat constructor; discriminate.
  - split; [exact Hd | exact Hl].
Defined.

End TopFacts.

(* ================================================================= *)
(** ** [parseMagnitude] and [parseCoordinate] *)

Module ParseFacts.
Import JsString JsNumber Dom Phivolcs Spec Binary64Facts JsNumberFacts.

Lemma digit_plain (c : ascii) :
  is_digit c = true ->
  is_space c = false /\ is_char 45 c = false /\ is_char 43 c = false /\
  ascii_eqb "I"%char c = false.
Proof.
  destruct c as [[] [] [] [] [] [] [] []]; intros H;
    try discriminate H; repeat split.
Qed.

Lemma span_digits (ds rest : str) :
  forallb is_digit ds = true ->
  match rest with [] => True | c :: _ => is_digit c = false end ->
  span is_digit (ds ++ rest) = (ds, rest).
Proof.
  intros Hds Hrest. induction ds as [|d ds IH]; simpl.
  - destruct rest as [|c rest]; [reflexivity|]. simpl. now rewrite Hrest.
  - simpl in Hds. apply andb_true_iff in Hds as [Hd Hds].
    now rewrite Hd, (IH Hds).
Qed.

Lemma ends_number_parts (c : ascii) :
  ends_number c = true ->
  is_digit c = false /\ is_char 46 c = false /\
  is_char 101 c = false /\ is_char 69 c = false.
Proof.
  unfold ends_number. intros H.
  repeat (apply andb_true_iff in H as [H ?]).
  repeat split; now apply negb_true_iff.
Qed.

Lemma parseFloat_integer_prefix (ds rest : str) :
  ds <> [] -> forallb is_digit ds = true -> unit_suffix rest ->
  parseFloat (ds ++ rest) = binary64 (inject_Z (digits_value ds)).
Proof.
  intros Hne Hds Hrest.
  destruct ds as [|d ds]; [congruence|].
  assert (Hd : is_digit d = true) by (simpl in Hds; now apply andb_true_iff in Hds).
  destruct (@digit_plain d Hd) as (Hsp & Hminus & Hplus & HI).
  assert (Hspan : span is_digit ((d :: ds) ++ rest) = (d :: ds, rest)).
  { apply span_digits; [exact Hds|].
    destruct rest as [|c rest]; [exact I|].
    now apply ends_number_parts in Hrest. }
  assert (Hr1 : match rest with
                | c :: r => if is_char 46 c then span is_digit r else ([], rest)
                | [] => ([], rest)
                end = ([], rest)).
  { destruct rest as [|c rest]; [reflexivity|].
    apply ends_number_parts in Hrest as (_ & -> & _). reflexivity. }
  assert (Hexp : exponent rest = 0%Z).
  { destruct rest as [|c rest]; [reflexivity|].
    apply ends_number_parts in Hrest as (_ & _ & H1 & H2).
    unfold exponent. now rewrite H1, H2. }
  unfold parseFloat.
  replace (trimStart ((d :: ds) ++ rest)) with ((d :: ds) ++ rest)
    by (simpl; now rewrite Hsp).
  replace (take_sign ((d :: ds) ++ rest)) with (false, (d :: ds) ++ rest)
    by (simpl; now rewrite Hminus, Hplus).
  replace (startsWith (lit "Infinity") ((d :: ds) ++ rest)) with false
    by (simpl; now rewrite HI).
  rewrite Hspan, Hr1, app_nil_r, Hexp.
  cbn [app]. apply binary64_Qeq. simpl. ring.
Qed.

Lemma digits_value_nonneg (ds : str) :
  forallb is_digit ds = true -> (0 <= digits_value ds)%Z.
Proof.
  unfold digits_value. intros H.
  assert (G : forall acc, (0 <= acc)%Z ->
            (0 <= fold_left
                    (fun a c => 10 * a + (Z.of_N (code c) - 48))%Z ds acc)%Z).
  { induction ds as [|d ds IH]; intros a Ha; cbn [fold_left forallb] in *;
      [exact Ha|].
    apply andb_true_iff in H as [Hd Hds]. apply IH; [exact Hds|].
    unfold is_digit in Hd. apply andb_true_iff in Hd as [Hd _].
    apply N.leb_le in Hd. lia. }
  apply G. lia.
Qed.

(** The default of [parseMagnitude] and [parseCoordinate] is never taken on
    a rounded value. *)
Lemma parse_default_unused (q : Q) :
  (if isNaN (binary64 q) then Finite 0 else binary64 q) = binary64 q.
Proof.
  pose proof (@binary64_number q) as H.
  destruct (binary64 q); [congruence|reflexivity..].
Qed.

(** X8. [parseMagnitude] and [parseCoordinate] read the number at the front
    of a string and ignore what follows it: on a run of decimal digits
    followed by nothing, or by a unit such as [" km"], both return the
    double nearest to the value of the digits (leading zeros included), and
    that is the value itself when it is at most [2 ^ 53]. *)
Theorem parse_reads_integer_prefix (ds rest : str) :
  ds <> [] -> forallb is_digit ds = true -> unit_suffix rest ->
  parseMagnitude (ds ++ rest) = binary64 (inject_Z (digits_value ds)) /\
  parseCoordinate (ds ++ rest) = binary64 (inject_Z (digits_value ds)) /\
  ((digits_value ds <= 2 ^ 53)%Z ->
   parseMagnitude (ds ++ rest) = Finite (inject_Z (digits_value ds)) /\
   parseCoordinate (ds ++ rest) = Finite (inject_Z (digits_value ds))).
Proof.
  intros Hne Hds Hrest.
  pose proof (@parseFloat_integer_prefix ds rest Hne Hds Hrest) as E.
  unfold parseMagnitude, parseCoordinate. rewrite E, parse_default_unused.
  repeat split; apply binary64_integer;
    pose proof (@digits_value_nonneg ds Hds); lia.
Qed.

Lemma parse_reads_integer_prefix_witness :
  parseMagnitude (lit "010 km") = Finite 10 /\
  parseCoordinate (lit "010 km") = Finite 10.
Proof.
  destruct (@parse_reads_integer_prefix (lit "010") (lit " km"))
    as (_ & _ & H).
  - discriminate.
  - reflexivity.
  - reflexivity.
  - apply H. vm_compute. discriminate.
Defined.

(** Past [2 ^ 53] the digits are rounded, a literal too large for a double
    reads as [Infinity] and one too small as zero. *)
Lemma parseFloat_rounds :
  parseFloat (lit "9007199254740993") = Finite 9007199254740992 /\
  parseFloat (lit "1e400") = PosInfinity /\
  parseFloat (lit "-1e400") = NegInfinity /\
  parseFloat (lit "1e-400") = Finite 0.
Proof. vm_compute. repeat split. Qed.

End ParseFacts.

(* ================================================================= *)
(** ** Statistics *)

Module StatsFacts.
Import JsString JsNumber Dom Phivolcs Spec Binary64Facts JsNumberFacts.

Lemma ltb_trans (x y z : number) :
  ltb x y = true -> ltb y z = true -> ltb x z = true.
Proof. intros H1 H2. eapply ltb_leb_trans; [exact H1|now apply ltb_leb]. Qed.

Lemma leb_ltb_trans (x y z : number) :
  leb x y = true -> ltb y z = true -> ltb x z = true.
Proof. intros H1 H2. cases. order. eapply Qle_lt_trans; eauto. Qed.

(** The reducer keeps the first record of greatest magnitude seen so far. *)
Lemma fold_stronger (rest : list EarthquakeData) :
  forall (l before after : list EarthquakeData) (x : EarthquakeData),
    l = before ++ x :: after ++ rest ->
    Forall (fun r => magnitudeNumeric r <> NaN) l ->
    (forall r, In r before ->
       ltb (magnitudeNumeric r) (magnitudeNumeric x) = true) ->
    (forall r, In r after ->
       leb (magnitudeNumeric r) (magnitudeNumeric x) = true) ->
    first_strongest (fold_left stronger rest x) l.
Proof.
  induction rest as [|c rest IH]; intros l before after x El Hnum Hb Ha.
  - exists before, after. rewrite app_nil_r in El. auto.
  - cbn [fold_left]. unfold stronger at 2. unfold gtb.
    assert (Hx : magnitudeNumeric x <> NaN /\ magnitudeNumeric c <> NaN).
    { rewrite Forall_forall in Hnum. split; apply Hnum; rewrite El;
        apply in_or_app; right; [now left|].
      right. apply in_or_app. right. now left. }
    destruct Hx as [Hx Hc].
    destruct (ltb (magnitudeNumeric x) (magnitudeNumeric c)) eqn:E.
    + apply (IH l (before ++ x :: after) [] c).
      * rewrite El, <- app_assoc. reflexivity.
      * exact Hnum.
      * intros r Hr. apply in_app_or in Hr as [Hr|[<-|Hr]].
        -- eapply ltb_trans; eauto.
        -- exact E.
        -- eapply leb_ltb_trans; eauto.
      * intros r [].
    + apply (IH l before (after ++ [c]) x).
      * rewrite El, <- app_assoc. reflexivity.
      * exact Hnum.
      * exact Hb.
      * intros r Hr. apply in_app_or in Hr as [Hr|[<-|[]]]; auto.
        now apply ltb_false_leb.
Qed.

Lemma reduce1_stronger (earthquakes : list EarthquakeData) :
  earthquakes <> [] ->
  Forall (fun r => magnitudeNumeric r <> NaN) earthquakes ->
  exists s, reduce1 stronger earthquakes = Return s /\
            first_strongest s earthquakes.
Proof.
  intros Hne Hnum. destruct earthquakes as [|x rest]; [congruence|].
  exists (fold_left stronger rest x). split; [reflexivity|].
  apply (@fold_stronger rest (x :: rest) [] [] x); auto; intros r [].
Qed.

Lemma depths_not_NaN (earthquakes : list EarthquakeData) :
  Forall (fun x => x <> NaN)
         (map (fun eq => parseMagnitude (depth eq)) earthquakes).
Proof.
  apply Forall_forall. intros x Hx. apply in_map_iff in Hx as (r & <- & _).
  apply ScrapeFacts.parseMagnitude_not_NaN.
Qed.

(** C7. On the empty sequence the statistics computation fails: the reduce
    that picks the strongest record throws, and no statistics object, with
    or without [NaN] or zero defaults, is produced. *)
Theorem stats_empty : stats [] = Throw reduce_of_empty.
Proof. reflexivity. Qed.

Lemma parseMagnitude_numeric_prefix (s : str) :
  parseMagnitude s = numeric_prefix s.
Proof.
  unfold parseMagnitude, numeric_prefix. now destruct (parseFloat s).
Qed.

Lemma range_average (xs : list number) :
  average (range_of xs) = rounded_mean xs.
Proof.
  unfold range_of, rounded_mean. cbn [average].
  now rewrite fold_left_running_sum.
Qed.

(** C8. On a non-empty sequence of records whose [magnitudeNumeric] is a
    number, the statistics are returned.  Magnitude max and min are the
    greatest and smallest [magnitudeNumeric].  The magnitude average is the
    sum accumulated from the left in double precision, divided by the count:
    it is the arithmetic mean when no running sum and not the quotient is
    rounded.  Depth max, min and average are the same over the numeric
    prefix of each depth string, 0 when there is none; a depth that is a
    run of digits, alone or before a unit, counts as the double nearest to
    the digits' value and lies between depth min and max.  [strongest] is
    the first record of greatest magnitude. *)
Theorem stats_nonempty (earthquakes : list EarthquakeData) :
  earthquakes <> [] ->
  Forall (fun r => magnitudeNumeric r <> NaN) earthquakes ->
  let magnitudes := map magnitudeNumeric earthquakes in
  let depths := map (fun r => numeric_prefix (depth r)) earthquakes in
  exists s,
    stats earthquakes = Return s /\
    total_count s = length earthquakes /\
    is_maximum (max (magnitude_range s)) magnitudes /\
    is_minimum (min (magnitude_range s)) magnitudes /\
    average (magnitude_range s) = rounded_mean magnitudes /\
    (forall qs, magnitudes = map Finite qs -> no_rounding qs ->
       equiv (average (magnitude_range s)) (Finite (mean qs))) /\
    is_maximum (max (depth_range s)) depths /\
    is_minimum (min (depth_range s)) depths /\
    average (depth_range s) = rounded_mean depths /\
    (forall qs, depths = map Finite qs -> no_rounding qs ->
       equiv (average (depth_range s)) (Finite (mean qs))) /\
    (forall r ds rest,
       In r earthquakes -> depth r = ds ++ rest ->
       ds <> [] -> forallb is_digit ds = true -> unit_suffix rest ->
       let km := binary64 (inject_Z (digits_value ds)) in
       leb (min (depth_range s)) km = true /\
       leb km (max (depth_range s)) = true) /\
    first_strongest (strongest s) earthquakes.
Proof.
  intros Hne Hnum magnitudes depths.
  destruct (reduce1_stronger Hne Hnum) as (s & Es & Hs).
  assert (Hm : Forall (fun x => x <> NaN) magnitudes).
  { apply Forall_forall. intros x Hx. apply in_map_iff in Hx as (r & <- & Hr).
    rewrite Forall_forall in Hnum. now apply Hnum. }
  assert (Ed : map (fun r => parseMagnitude (depth r)) earthquakes = depths).
  { apply map_ext. intros r. apply parseMagnitude_numeric_prefix. }
  assert (Hd : Forall (fun x => x <> NaN) depths).
  { rewrite <- Ed. apply depths_not_NaN. }
  assert (Hmne : magnitudes <> []).
  { intros E. apply map_eq_nil in E. congruence. }
  assert (Hdne : depths <> []).
  { intros E. apply map_eq_nil in E. congruence. }
  assert (Hmean : forall xs qs, xs <> [] -> xs = map Finite qs ->
            no_rounding qs ->
            equiv (average (range_of xs)) (Finite (mean qs))).
  { intros xs qs Hxs -> Hqs. apply average_exact; [|exact Hqs].
    intros ->. now apply Hxs. }
  destruct (Math_max_spec Hdne Hd) as [Dmax_in Dmax].
  destruct (Math_min_spec Hdne Hd) as [Dmin_in Dmin].
  eexists. split.
  - unfold stats. rewrite Es. reflexivity.
  - cbn [total_count magnitude_range depth_range strongest].
    rewrite Ed. fold magnitudes.
    split; [reflexivity|].
    split; [now apply Math_max_spec|].
    split; [now apply Math_min_spec|].
    split; [apply range_average|].
    split; [intros qs E Hqs; now apply Hmean|].
    split; [split; assumption|].
    split; [split; assumption|].
    split; [apply range_average|].
    split; [intros qs E Hqs; now apply Hmean|].
    split.
    + intros r ds rest Hr Er Hds Hdig Hrest.
      set (km := binary64 (inject_Z (digits_value ds))).
      assert (Hkm : In km depths).
      { apply in_map_iff. exists r. split; [|exact Hr].
        rewrite <- parseMagnitude_numeric_prefix, Er.
        unfold parseMagnitude.
        rewrite (@ParseFacts.parseFloat_integer_prefix ds rest Hds Hdig Hrest).
        apply ParseFacts.parse_default_unused. }
      cbn [max min range_of]. split; [now apply Dmin | now apply Dmax].
    + destruct Hs as (b & a & H1 & H2 & H3). now exists b, a.
Qed.

Lemma stats_nonempty_witness :
  exists s,
    stats Fixture.measured_three = Return s /\
    total_count s = 3%nat /\
    max (magnitude_range s) = parseMagnitude (lit "5.8") /\
    min (magnitude_range s) = parseMagnitude (lit "2.1") /\
    average (magnitude_range s) =
      Finite (4653719614949513 # 1125899906842624) /\
    max (depth_range s) = Finite 10 /\
    min (depth_range s) = Finite 3 /\
    equiv (average (depth_range s)) (Finite 6) /\
    location (strongest s) = lit "Davao".
Proof.
  destruct (@stats_nonempty Fixture.measured_three)
    as (s & Es & Hn & _ & _ & Ea & _ & _ & _ & _ & Hd & _).
  - discriminate.
  - repeat constructor; vm_compute; discriminate.
  - exists s. split; [exact Es|]. split; [exact Hn|].
    assert (D : equiv (average (depth_range s)) (Finite (mean [10; 5; 3]))).
    { apply Hd.
      - vm_compute. reflexivity.
      - split; [|vm_compute; reflexivity].
        intros [|[|[|[|k]]]] Hk; vm_compute; reflexivity. }
    rewrite Ea. clear Ea Hd Hn.
    vm_compute in Es. injection Es as <-.
    repeat split; try exact D; vm_compute; reflexivity.
Defined.

(** C8, the claim as it is worded.  Three records of magnitude 2.7: their
    arithmetic mean is the double 2.7 itself, the average computed is
    2.7000000000000006, the next double up. *)
Lemma average_is_not_the_mean : ~ average_is_mean (Fixture.thrice "2.7").
Proof.
  intros H.
  destruct (stats (Fixture.thrice "2.7")) as [s|e] eqn:Es;
    [|vm_compute in Es; discriminate].
  pose (q := 3039929748475085 # 1125899906842624).
  assert (Eq : map magnitudeNumeric (Fixture.thrice "2.7") =
               map Finite [q; q; q]) by (vm_compute; reflexivity).
  specialize (H s [q; q; q] Es Eq).
  vm_compute in Es. injection Es as <-.
  vm_compute in H. discriminate H.
Qed.

(** The fixture of the specification: magnitudes 4.5, 5.8 and 2.1 average
    to 4.133333333333334, and the strongest record is the one of 5.8. *)
Lemma stats_of_three :
  exists s,
    stats Fixture.measured_three = Return s /\
    max (magnitude_range s) = binary64 5.8 /\
    min (magnitude_range s) = binary64 2.1 /\
    average (magnitude_range s) = binary64 4.133333333333334 /\
    magnitude (strongest s) = lit "5.8".
Proof. eexists. split; [reflexivity|]. vm_compute. repeat split. Qed.

End StatsFacts.

(* ================================================================= *)
(** ** The cache over many calls *)

Module CacheRuns.
Import JsString JsNumber Dom Phivolcs Spec CacheFacts.

(** X1. Whatever the interleaving of calls and replies since start-up, the
    cache slot is empty or holds a non-empty sequence of well-formed Records,
    and every sequence a caller has received is non-empty and made of
    well-formed Records (four required fields non-empty, [magnitudeNumeric]
    the parse of [magnitude]). *)
Theorem served_always_well_formed (evs : list event) :
  snapshot_ok (earthquakeCache (sys_state (run boot evs))) /\
  forall caller records,
    In (caller, Return records) (finished (run boot evs)) ->
    records <> [] /\ Forall well_formed records.
Proof.
  assert (H : served_ok (run boot evs)).
  { apply run_ok. split; [exact I|]. intros ? ? []. }
  destruct H as [Hc Hf]. split; [exact Hc|].
  intros caller records Hin. exact (Hf caller records Hin).
Qed.

Lemma served_always_well_formed_witness :
  map record_of (filter qualifies (table_rows Fixture.page_good)) <> [] /\
  Forall well_formed
    (map record_of (filter qualifies (table_rows Fixture.page_good))).
Proof.
  apply (proj2 (served_always_well_formed
                  [Call 7 false 0; Reply 7 (Resolved Fixture.page_good) 100])
               7%nat).
  vm_compute. left. reflexivity.
Defined.

Lemma step_keeps_snapshot (sys : system) (ev : event) (entry : CacheEntry) :
  earthquakeCache (sys_state sys) = Some entry ->
  (exists entry', earthquakeCache (sys_state (step sys ev)) = Some entry') /\
  no_new_throw sys (step sys ev).
Proof.
  intros Hc. destruct ev as [caller forceRefresh now|caller r now]; cbn [step].
  - destruct (fetchEarthquakes_enter forceRefresh now _) as [cached|].
    + split; [now exists entry|].
      exists [(caller, Return cached)]. split; [reflexivity|].
      repeat constructor. now exists cached.
    + split; [now exists entry|].
      exists []. split; [now rewrite app_nil_r | constructor].
  - destruct (existsb _ _).
    + rewrite Hc. unfold fetchEarthquakes_resume.
      destruct (attempt r) as [records|e].
      * split; [eexists; reflexivity|].
        exists [(caller, Return records)]. split; [reflexivity|].
        repeat constructor. now exists records.
      * split; [now exists entry|].
        exists [(caller, Return (data entry))]. split; [reflexivity|].
        repeat constructor. now exists (data entry).
    + split; [now exists entry|].
      exists []. split; [now rewrite app_nil_r | constructor].
Qed.

(** X2. Once the cache holds a snapshot it holds one for good, and from then
    on no call throws, whatever the upstream answers and however calls and
    replies interleave. *)
Theorem cached_never_throws (evs : list event) (sys : system)
    (entry : CacheEntry) :
  earthquakeCache (sys_state sys) = Some entry ->
  (exists entry', earthquakeCache (sys_state (run sys evs)) = Some entry') /\
  no_new_throw sys (run sys evs).
Proof.
  revert sys entry. induction evs as [|ev evs IH]; intros sys entry Hc.
  - split; [now exists entry|].
    exists []. split; [now rewrite app_nil_r | constructor].
  - cbn [run fold_left]. fold (run (step sys ev) evs).
    destruct (@step_keeps_snapshot sys ev entry Hc) as [[entry1 H1] (a1 & E1 & F1)].
    destruct (IH _ _ H1) as [H2 (a2 & E2 & F2)].
    split; [exact H2|].
    exists (a1 ++ a2). split.
    + now rewrite E2, E1, app_assoc.
    + apply Forall_app. now split.
Qed.

Lemma cached_never_throws_witness :
  finished
    (run {| sys_state := {| earthquakeCache := Some Fixture.old_entry;
                            requests := 1%nat |};
            waiting := []; finished := [] |}
         [Call 1 true 2000; Reply 1 (Rejected Fixture.network_down) 2100;
          Call 2 false 900000; Reply 2 (Resolved Fixture.page_no_table) 900100])
  = [(1%nat, Return Fixture.three); (2%nat, Return Fixture.three)].
Proof.
  destruct (@cached_never_throws
              [Call 1 true 2000; Reply 1 (Rejected Fixture.network_down) 2100;
               Call 2 false 900000;
               Reply 2 (Resolved Fixture.page_no_table) 900100]
              {| sys_state := {| earthquakeCache := Some Fixture.old_entry;
                                 requests := 1%nat |};
                 waiting := []; finished := [] |}
              Fixture.old_entry Logic.eq_refl) as [_ (added & E & _)].
  rewrite E. vm_compute in E. vm_compute. symmetry. exact E.
Defined.

Lemma expired_enter (now : Z) (entry : CacheEntry) (forceRefresh : bool) :
  expired now entry ->
  fetchEarthquakes_enter forceRefresh now (Some entry) = None.
Proof.
  unfold expired. intros H. apply enter_invalid. unfold isCacheValid.
  apply Z.ltb_ge. exact H.
Qed.

(** X3. Failures are not remembered.  While the cached snapshot is expired
    and every attempt fails, each unforced call in a row makes one upstream
    request, returns the stale records, and leaves the snapshot and its
    timestamp untouched: [n] calls, [n] requests. *)
Theorem stale_served_on_every_failure (visits : list (Z * reply * Z))
    (entry : CacheEntry) (made : nat) :
  Forall (fun v => expired (fst (fst v)) entry /\
                   exists e, attempt (snd (fst v)) = Throw e) visits ->
  poll visits {| earthquakeCache := Some entry; requests := made |} =
  (repeat (Return (data entry)) (length visits),
   {| earthquakeCache := Some entry; requests := length visits + made |}).
Proof.
  revert made. induction visits as [|[[now r] now'] visits IH];
    intros made Hall; [reflexivity|].
  inversion Hall as [|? ? [Hexp [e He]] Hrest]; subst. cbn [fst snd] in *.
  cbn [poll]. unfold fetchEarthquakes. cbn [earthquakeCache requests].
  rewrite (expired_enter false Hexp).
  rewrite (@resume_failure r e now' (Some entry) He).
  rewrite (IH (S made) Hrest). cbn [length repeat].
  now rewrite Nat.add_succ_r.
Qed.

Lemma stale_served_on_every_failure_witness :
  poll [(400000%Z, Rejected Fixture.network_down, 400100%Z);
        (400200%Z, Resolved Fixture.page_no_table, 400300%Z);
        (400400%Z, Resolved Fixture.page_empty_table, 400500%Z)]
       {| earthquakeCache := Some Fixture.old_entry; requests := 1%nat |}
  = ([Return Fixture.three; Return Fixture.three; Return Fixture.three],
     {| earthquakeCache := Some Fixture.old_entry; requests := 4%nat |}).
Proof.
  apply (@stale_served_on_every_failure
           [(400000%Z, Rejected Fixture.network_down, 400100%Z);
            (400200%Z, Resolved Fixture.page_no_table, 400300%Z);
            (400400%Z, Resolved Fixture.page_empty_table, 400500%Z)]
           Fixture.old_entry 1%nat).
  repeat constructor; try (vm_compute; discriminate);
    eexists; vm_compute; reflexivity.
Defined.

(** X4. A call makes an upstream request exactly when it is forced, or the
    cache is empty, or the snapshot is at least [CACHE_TTL_MS] old: at an age
    of exactly five minutes the snapshot has expired.  In every other case
    the call makes none. *)
Theorem request_iff_forced_empty_or_expired (forceRefresh : bool)
    (now now' : Z) (r : reply) (st : state) :
  let after := snd (fetchEarthquakes forceRefresh now r now' st) in
  (requests after = S (requests st) <->
   forceRefresh = true \/
   earthquakeCache st = None \/
   exists entry, earthquakeCache st = Some entry /\
                 (300000 <= now - timestamp entry)%Z) /\
  (requests after = S (requests st) \/ after = st).
Proof.
  unfold fetchEarthquakes.
  destruct (fetchEarthquakes_enter forceRefresh now (earthquakeCache st))
    as [cached|] eqn:E.
  - cbn [snd]. split; [|now right].
    apply enter_hit in E as (-> & entry & Hc & _ & Hage).
    unfold CACHE_TTL_MS in Hage. split.
    + intros H. exfalso. lia.
    + intros [H|[H|(entry' & H & Hold)]]; try congruence.
      assert (entry' = entry) by congruence. subst. lia.
  - destruct (fetchEarthquakes_resume r now' (earthquakeCache st)) as [res c].
    cbn [snd requests]. split; [|now left].
    split; [intros _|reflexivity].
    destruct forceRefresh; [now left|right].
    destruct (earthquakeCache st) as [entry|] eqn:Hc; [right|now left].
    exists entry. split; [reflexivity|].
    unfold fetchEarthquakes_enter, isCacheValid in E. cbn [negb andb] in E.
    destruct (Z.ltb_spec (now - timestamp entry) CACHE_TTL_MS) as [L|L];
      [discriminate E|].
    unfold CACHE_TTL_MS in L. lia.
Qed.

Lemma request_iff_forced_empty_or_expired_witness :
  requests (snd (fetchEarthquakes false 301000 (Rejected Fixture.network_down)
              301100
              {| earthquakeCache := Some Fixture.old_entry; requests := 1%nat |}))
  = 2%nat.
Proof.
  apply (proj1 (@request_iff_forced_empty_or_expired false 301000 301100
                  (Rejected Fixture.network_down)
                  {| earthquakeCache := Some Fixture.old_entry;
                     requests := 1%nat |})).
  right. right. exists Fixture.old_entry. split; [reflexivity|].
  vm_compute. discriminate.
Defined.

End CacheRuns.

(* ================================================================= *)
(** ** Shape of the extracted records *)

Module RecordShape.
Import JsString JsNumber Dom Phivolcs Spec JsStringFacts ScrapeFacts.

Lemma trimStart_head (s : str) (c : ascii) (t : str) :
  trimStart s = c :: t -> is_space c = false.
Proof.
  induction s as [|a s IH]; simpl; [discriminate|].
  destruct (is_space a) eqn:E; [exact IH|].
  now intros [= <- _].
Qed.

Lemma trimStart_suffix (s : str) : exists pre, s = pre ++ trimStart s.
Proof.
  induction s as [|a s [pre IH]]; simpl.
  - now exists [].
  - destruct (is_space a).
    + exists (a :: pre). simpl. now rewrite <- IH.
    + now exists [].
Qed.

Lemma trimEnd_prefix (s : str) : exists post, s = trimEnd s ++ post.
Proof.
  unfold trimEnd. destruct (trimStart_suffix (rev s)) as [pre E].
  exists (rev pre). rewrite <- rev_app_distr, <- E. now rewrite rev_involutive.
Qed.

Lemma trimEnd_last (s : str) (c : ascii) (t : str) :
  trimEnd s = t ++ [c] -> is_space c = false.
Proof.
  unfold trimEnd. intros E. apply (f_equal (@rev ascii)) in E.
  rewrite rev_involutive, rev_app_distr in E. simpl in E.
  eapply trimStart_head; eauto.
Qed.

Lemma trim_edge_clean (s : str) : edge_clean (trim s).
Proof.
  unfold trim. split.
  - intros c t E. destruct (trimEnd_prefix (trimStart s)) as [post P].
    rewrite E in P. simpl in P. eapply trimStart_head; eauto.
  - intros c t E. eapply trimEnd_last; eauto.
Qed.

Lemma single_spaced_app (s t : str) :
  single_spaced (s ++ t) = true ->
  single_spaced s = true /\ single_spaced t = true.
Proof.
  induction s as [|c s IH]; simpl; intros H; [now split|].
  apply andb_true_iff in H as [Hc Hs]. destruct (IH Hs) as [H1 H2].
  split; [|exact H2]. rewrite H1, andb_true_r.
  destruct (is_space c); [|reflexivity].
  apply andb_true_iff in Hc as [Hc Hn]. rewrite Hc. simpl.
  destruct s as [|d s]; [reflexivity|exact Hn].
Qed.

Lemma space_is_space : is_space " "%char = true.
Proof. reflexivity. Qed.

Lemma collapse_go_head (b : bool) (s : str) (d : ascii) (t : str) :
  collapse_go b s = d :: t -> is_space d = true -> b = false.
Proof.
  revert b. induction s as [|c s IH]; intros b; simpl; [discriminate|].
  destruct (is_space c) eqn:E.
  - destruct b; [|reflexivity]. intros H Hd. exact (IH true H Hd).
  - intros [= <- _] Hd. congruence.
Qed.

Lemma collapse_go_single_spaced (b : bool) (s : str) :
  single_spaced (collapse_go b s) = true.
Proof.
  revert b. induction s as [|c s IH]; intros b; simpl; [reflexivity|].
  destruct (is_space c) eqn:E.
  - destruct b; [apply IH|].
    cbn [single_spaced]. rewrite space_is_space, IH, andb_true_r.
    destruct (collapse_go true s) as [|d t] eqn:C; [reflexivity|].
    cbn. destruct (is_space d) eqn:Ed; [|reflexivity].
    discriminate (collapse_go_head _ _ C Ed).
  - cbn [single_spaced]. now rewrite E, IH.
Qed.

Lemma trim_single_spaced (s : str) :
  single_spaced s = true -> single_spaced (trim s) = true.
Proof.
  intros H. unfold trim.
  destruct (trimStart_suffix s) as [pre P].
  destruct (trimEnd_prefix (trimStart s)) as [post Q].
  rewrite P in H. apply single_spaced_app in H as [_ H].
  rewrite Q in H. now apply single_spaced_app in H as [H _].
Qed.

(** Every record the scraper returns is the Record of a qualifying row. *)
Lemma scrape_from_rows (page : document) (records : list EarthquakeData)
    (r : EarthquakeData) :
  scrape page = Return records -> In r records ->
  exists row, In row (table_rows page) /\ qualifies row = true /\
              r = record_of row.
Proof.
  rewrite scrape_eq. intros H Hin.
  destruct (select _ _ page); [discriminate|].
  destruct (map record_of _) eqn:E; [discriminate|].
  injection H as <-. rewrite <- E in Hin.
  apply in_map_iff in Hin as (row & <- & Hrow).
  apply filter_In in Hrow as [Hrow Hq]. now exists row.
Qed.

(** X5. In every record the scraper returns, [date], [time], [latitude],
    [longitude], [depth], [magnitude] and [location] carry no white space at
    either end. *)
Theorem scraped_fields_trimmed (page : document)
    (records : list EarthquakeData) (r : EarthquakeData) :
  scrape page = Return records -> In r records ->
  edge_clean (date r) /\ edge_clean (time r) /\ edge_clean (latitude r) /\
  edge_clean (longitude r) /\ edge_clean (depth r) /\
  edge_clean (magnitude r) /\ edge_clean (location r).
Proof.
  intros H Hin. destruct (@scrape_from_rows page records r H Hin) as (row & _ & _ & ->).
  unfold record_of. cbn. repeat split; apply trim_edge_clean.
Qed.

Lemma scraped_fields_trimmed_witness :
  let r := record_of Fixture.batangas_row in
  edge_clean (date r) /\ edge_clean (time r) /\ edge_clean (latitude r) /\
  edge_clean (longitude r) /\ edge_clean (depth r) /\
  edge_clean (magnitude r) /\ edge_clean (location r).
Proof.
  apply (@scraped_fields_trimmed Fixture.page_good
           (map record_of (filter qualifies (table_rows Fixture.page_good)))).
  - vm_compute. reflexivity.
  - vm_compute. left. reflexivity.
Defined.

(** X6. The [location] of every record the scraper returns is white-space
    normalised: its only white space is the space character, never two in a
    row (tabs, line breaks and non-breaking spaces of the page are gone). *)
Theorem scraped_location_normalised (page : document)
    (records : list EarthquakeData) (r : EarthquakeData) :
  scrape page = Return records -> In r records ->
  single_spaced (location r) = true.
Proof.
  intros H Hin. destruct (@scrape_from_rows page records r H Hin) as (row & _ & _ & ->).
  unfold record_of. cbn [location].
  apply trim_single_spaced, collapse_go_single_spaced.
Qed.

Lemma scraped_location_normalised_witness :
  single_spaced (location (record_of Fixture.batangas_row)) = true /\
  location (record_of Fixture.batangas_row) = lit "015 km N of Batangas City".
Proof.
  split; [|reflexivity].
  apply (@scraped_location_normalised Fixture.page_good
           (map record_of (filter qualifies (table_rows Fixture.page_good)))).
  - vm_compute. reflexivity.
  - vm_compute. left. reflexivity.
Defined.

Lemma split_go_no_sep (sep s cur : str) :
  includes s sep = false -> split_go sep 0 s cur = [rev cur ++ s].
Proof.
  revert cur. induction s as [|c s IH]; intros cur H.
  - simpl. now rewrite app_nil_r.
  - cbn [includes] in H. apply orb_false_iff in H as [Hs Hi].
    cbn [split_go]. rewrite Hs, (IH (c :: cur) Hi). simpl.
    now rewrite <- app_assoc.
Qed.

Lemma filled_nonempty (s : str) : filled s = true -> s <> [].
Proof. intros H ->. discriminate H. Qed.

(** X7. Every record the scraper returns comes from a row of the data table
    with at least 6 cells whose first cell holds a link, and the trimmed text
    of that link contains the separator [" - "]: a row without a link, or
    with a differently separated date, is dropped, never half-filled. *)
Theorem scraped_rows_have_dated_link (page : document)
    (records : list EarthquakeData) (r : EarthquakeData) :
  scrape page = Return records -> In r records ->
  exists row,
    In row (table_rows page) /\ r = record_of row /\
    (6 <= length (cells row))%nat /\
    find (lit "a") (Dom.eq 0 (cells row)) <> [] /\
    includes (trim (text (find (lit "a") (Dom.eq 0 (cells row)))))
             (lit " - ") = true.
Proof.
  intros H Hin.
  destruct (@scrape_from_rows page records r H Hin) as (row & Hrow & Hq & ->).
  exists row. split; [exact Hrow|]. split; [reflexivity|].
  unfold qualifies in Hq.
  apply andb_true_iff in Hq as [Hq _]. apply andb_true_iff in Hq as [Hq _].
  apply andb_true_iff in Hq as [Hq Htime].
  apply andb_true_iff in Hq as [Hcells _].
  apply Nat.leb_le in Hcells. split; [exact Hcells|].
  apply filled_nonempty in Htime. unfold date_time in Htime.
  destruct (find (lit "a") (Dom.eq 0 (cells row))) as [|a link] eqn:L;
    [now elim Htime|].
  split; [discriminate|].
  destruct (includes (trim (text (a :: link))) (lit " - ")) eqn:I;
    [reflexivity|].
  exfalso. apply Htime. unfold split.
  now rewrite (split_go_no_sep _ _ [] I).
Qed.

Lemma scraped_rows_have_dated_link_witness :
  exists row,
    In row (table_rows Fixture.page_good) /\
    record_of Fixture.batangas_row = record_of row /\
    (6 <= length (cells row))%nat /\
    find (lit "a") (Dom.eq 0 (cells row)) <> [] /\
    includes (trim (text (find (lit "a") (Dom.eq 0 (cells row)))))
             (lit " - ") = true.
Proof.
  apply (@scraped_rows_have_dated_link Fixture.page_good
           (map record_of (filter qualifies (table_rows Fixture.page_good)))).
  - vm_compute. reflexivity.
  - vm_compute. left. reflexivity.
Defined.

End RecordShape.

(* ================================================================= *)
(** ** The handlers *)

Module HandlerFacts.
Import JsString JsNumber Dom Phivolcs Spec CacheFacts.

(** The three ways a call served alone can go. *)
Lemma fetch_cases (forceRefresh : bool) (now now' : Z) (r : reply) (st : state) :
  (exists cached,
     fetchEarthquakes_enter forceRefresh now (earthquakeCache st) = Some cached /\
     fetchEarthquakes forceRefresh now r now' st = (Return cached, st)) \/
  (exists records,
     fetchEarthquakes_enter forceRefresh now (earthquakeCache st) = None /\
     attempt r = Return records /\
     fetchEarthquakes forceRefresh now r now' st =
     (Return records,
      {| earthquakeCache := Some {| data := records; timestamp := now' |};
         requests := S (requests st) |})) \/
  (exists e,
     fetchEarthquakes_enter forceRefresh now (earthquakeCache st) = None /\
     attempt r = Throw e /\
     fetchEarthquakes forceRefresh now r now' st =
     match earthquakeCache st with
     | Some entry =>
         (Return (data entry),
          {| earthquakeCache := Some entry; requests := S (requests st) |})
     | None =>
         (Throw e, {| earthquakeCache := None; requests := S (requests st) |})
     end).
Proof.
  unfold fetchEarthquakes.
  destruct (fetchEarthquakes_enter forceRefresh now (earthquakeCache st))
    as [cached|] eqn:E.
  - left. now exists cached.
  - right. destruct (attempt r) as [records|e] eqn:A.
    + left. exists records. now rewrite (@resume_success r records now' _ A).
    + right. exists e. rewrite (@resume_failure r e now' _ A).
      now destruct (earthquakeCache st).
Qed.

Lemma throw_source (forceRefresh : bool) (now now' : Z) (r : reply)
    (st : state) (e : exn) :
  fst (fetchEarthquakes forceRefresh now r now' st) = Throw e ->
  earthquakeCache st = None /\ attempt r = Throw e.
Proof.
  destruct (fetch_cases forceRefresh now now' r st)
    as [(cached & _ & ->)|[(records & _ & _ & ->)|(e' & _ & A & ->)]];
    cbn [fst]; try discriminate.
  destruct (earthquakeCache st); cbn [fst]; [discriminate|].
  intros [= <-]. now split.
Qed.

Lemma throw_from_empty (forceRefresh : bool) (now now' : Z) (r : reply)
    (st : state) (e : exn) :
  earthquakeCache st = None -> attempt r = Throw e ->
  fst (fetchEarthquakes forceRefresh now r now' st) = Throw e.
Proof.
  intros Hc A. unfold fetchEarthquakes, fetchEarthquakes_enter.
  rewrite Hc. cbn [isCacheValid]. rewrite andb_false_r.
  now rewrite (@resume_failure r e now' None A).
Qed.

(** X9. A call throws exactly when the cache is empty and its attempt
    fails, and what it throws is the failure of the attempt; in every other
    case it returns records. *)
Theorem fetch_throws_iff (forceRefresh : bool) (now now' : Z) (r : reply)
    (st : state) (e : exn) :
  fst (fetchEarthquakes forceRefresh now r now' st) = Throw e <->
  earthquakeCache st = None /\ attempt r = Throw e.
Proof.
  destruct (fetch_cases forceRefresh now now' r st)
    as [(cached & En & ->)|[(records & En & A & ->)|(e' & En & A & ->)]];
    cbn [fst].
  - split; [discriminate|]. intros [Hc _].
    apply enter_hit in En as (_ & entry & Hs & _). congruence.
  - split; [discriminate|]. intros [_ H]. congruence.
  - destruct (earthquakeCache st) as [entry|]; cbn [fst].
    + split; [discriminate|]. intros [H _]. discriminate H.
    + split.
      * intros [= <-]. now split.
      * intros [_ H]. congruence.
Qed.

Lemma fetch_throws_iff_witness :
  fst (fetchEarthquakes false 0 (Resolved Fixture.page_empty_table) 100 initial)
  = Throw no_valid_data.
Proof.
  apply (proj2 (@fetch_throws_iff false 0 100
                  (Resolved Fixture.page_empty_table) initial no_valid_data)).
  split; reflexivity.
Defined.

(** X10. [GET /health] answers 503 "unhealthy" exactly when there is no
    snapshot at all and the attempt fails, with the message of that failure.
    With an expired snapshot and a failing upstream it answers "healthy",
    with [cache_valid] false and the count of the stale records. *)
Theorem health_unhealthy_iff (now now' later : Z) (r : reply) (st : state) :
  let answer := fst (serve health now r now' later st) in
  (forall status msg,
     answer = Unhealthy status msg <->
     status = 503%nat /\ earthquakeCache st = None /\
     exists e, attempt r = Throw e /\ msg = message_of e) /\
  (forall entry e,
     earthquakeCache st = Some entry ->
     expired now entry -> expired later entry ->
     attempt r = Throw e ->
     answer = Healthy {| cache_valid := false;
                         last_update := if (timestamp entry =? 0)%Z then None
                                        else Some (timestamp entry);
                         data_count := length (data entry) |}).
Proof.
  unfold serve.
  destruct (fetchEarthquakes false now r now' st) as [fetched st'] eqn:F.
  cbn [fst]. split.
  - intros status msg. split.
    + destruct fetched as [records|e]; cbn [health]; [discriminate|].
      intros [= <- <-].
      assert (T : fst (fetchEarthquakes false now r now' st) = Throw e)
        by now rewrite F.
      apply throw_source in T as [Hc A].
      split; [reflexivity|]. split; [exact Hc|]. now exists e.
    + intros (-> & Hc & e & A & ->).
      assert (T : fst (fetchEarthquakes false now r now' st) = Throw e)
        by now apply throw_from_empty.
      rewrite F in T. cbn [fst] in T. now rewrite T.
  - intros entry e Hc Hnow Hlater A.
    unfold fetchEarthquakes in F. rewrite Hc in F.
    rewrite (CacheRuns.expired_enter false Hnow) in F.
    rewrite (@resume_failure r e now' _ A) in F.
    injection F as <- <-. cbn [health earthquakeCache].
    unfold isCacheValid, expired in *.
    apply Z.ltb_ge in Hlater. now rewrite Hlater.
Qed.

Lemma health_unhealthy_iff_witness :
  fst (serve health 400000 (Rejected Fixture.network_down) 400100 400101
         {| earthquakeCache := Some Fixture.old_entry; requests := 1%nat |})
  = Healthy {| cache_valid := false; last_update := Some 1000%Z;
               data_count := 3 |} /\
  fst (serve health 0 (Rejected Fixture.network_down) 100 101 initial)
  = Unhealthy 503 (lit "timeout of 15000ms exceeded").
Proof.
  split.
  - apply (proj2 (@health_unhealthy_iff 400000 400100 400101
                    (Rejected Fixture.network_down)
                    {| earthquakeCache := Some Fixture.old_entry;
                       requests := 1%nat |})
             Fixture.old_entry Fixture.network_down);
      try reflexivity; vm_compute; discriminate.
  - apply (proj1 (@health_unhealthy_iff 0 100 101
                    (Rejected Fixture.network_down) initial)).
    split; [reflexivity|]. split; [reflexivity|].
    exists Fixture.network_down. split; reflexivity.
Defined.

(** What a served-alone call returns is the snapshot it leaves in the cache,
    and it is servable when the snapshot it found was. *)
Lemma fetch_returns (forceRefresh : bool) (now now' : Z) (r : reply)
    (st : state) (records : list EarthquakeData) :
  snapshot_ok (earthquakeCache st) ->
  fst (fetchEarthquakes forceRefresh now r now' st) = Return records ->
  servable records /\
  exists entry,
    earthquakeCache (snd (fetchEarthquakes forceRefresh now r now' st))
      = Some entry /\
    data entry = records.
Proof.
  intros Hok.
  destruct (fetch_cases forceRefresh now now' r st)
    as [(cached & En & ->)|[(recs & En & A & ->)|(e & En & A & ->)]];
    cbn [fst snd].
  - intros [= <-]. split; [eapply enter_ok; eauto|].
    apply enter_hit in En as (_ & entry & Hc & -> & _). now exists entry.
  - intros [= <-]. split; [now apply (@attempt_servable r)|].
    eexists. split; reflexivity.
  - destruct (earthquakeCache st) as [entry|]; cbn [fst snd];
      [|discriminate].
    intros [= <-]. split; [exact Hok|]. now exists entry.
Qed.

(** X11. [GET /earthquakes], when it answers with data, lists exactly the
    snapshot the cache holds as the response is built; [count] is its
    length and is at least 1; [cache_age_seconds] is the age of that
    snapshot in whole seconds, rounded down. *)
Theorem list_reports_snapshot (now now' later : Z) (r : reply) (st : state)
    (body : Listing) :
  snapshot_ok (earthquakeCache st) ->
  fst (serve earthquakes_list now r now' later st) = Json body ->
  exists entry,
    earthquakeCache (snd (serve earthquakes_list now r now' later st))
      = Some entry /\
    listed body = data entry /\
    count body = length (data entry) /\
    (1 <= count body)%nat /\
    (1000 * cache_age_seconds body <= later - timestamp entry
     < 1000 * cache_age_seconds body + 1000)%Z.
Proof.
  intros Hok. unfold serve.
  pose proof (@fetch_returns false now now' r st) as R.
  destruct (fetchEarthquakes false now r now' st) as [fetched st'] eqn:F.
  cbn [fst snd] in *.
  destruct fetched as [records|e]; cbn [earthquakes_list]; [|discriminate].
  destruct (R records Hok Logic.eq_refl) as ([Hne _] & entry & Hc & Hd).
  intros [= <-]. exists entry. rewrite Hc. cbn [listed count cache_age_seconds].
  split; [reflexivity|]. split; [now rewrite Hd|]. split; [now rewrite Hd|].
  split.
  - destruct records; [congruence|simpl; lia].
  - pose proof (Z.div_mod (later - timestamp entry) 1000 ltac:(lia)) as D.
    pose proof (Z.mod_pos_bound (later - timestamp entry) 1000 ltac:(lia)) as B.
    lia.
Qed.

Lemma good_entry_ok : snapshot_ok (Some Fixture.good_entry).
Proof.
  apply (@ScrapeFacts.scrape_records Fixture.page_good). vm_compute. reflexivity.
Qed.

Lemma list_reports_snapshot_witness :
  exists entry,
    earthquakeCache
      (snd (serve earthquakes_list 121500 (Rejected Fixture.network_down) 0
              121999 {| earthquakeCache := Some Fixture.good_entry;
                        requests := 1%nat |})) = Some entry /\
    Fixture.good_records = data entry /\
    2%nat = length (data entry) /\
    (1 <= 2)%nat /\
    (1000 * 120 <= 121999 - timestamp entry < 1000 * 120 + 1000)%Z.
Proof.
  apply (@list_reports_snapshot 121500 0 121999 (Rejected Fixture.network_down)
           {| earthquakeCache := Some Fixture.good_entry; requests := 1%nat |}
           {| count := 2; cache_age_seconds := 120;
              listed := Fixture.good_records |}).
  - exact good_entry_ok.
  - reflexivity.
Defined.

Lemma truthy_iff (s : str) : JsString.truthy s = true <-> s <> [].
Proof. destruct s; simpl; split; congruence. Qed.

(** X12. The [count] path parameter is accepted exactly when it is a
    non-empty string of decimal digits whose value lies between 1 and 50;
    the accepted count is that value.  A sign, a decimal point, a space, the
    empty string, ["0"] and anything above 50 are rejected; leading zeros
    are accepted and ignored. *)
Theorem count_param_accepts (s : str) (n : nat) :
  (count_param s = Some n <->
   s <> [] /\ forallb is_digit s = true /\
   digits_value s = Z.of_nat n /\ (1 <= n <= 50)%nat) /\
  (s <> [] -> count_param ("0"%char :: s) = count_param s).
Proof.
  unfold count_param, MAX_TOP_COUNT. change (Z.of_nat 50) with 50%Z. split.
  - destruct (JsString.truthy s) eqn:T; cbn [andb].
    + apply truthy_iff in T.
      destruct (forallb is_digit s) eqn:D.
      * destruct ((0 <? digits_value s)%Z && (digits_value s <=? 50)%Z) eqn:R.
        -- apply andb_true_iff in R as [R1 R2].
           apply Z.ltb_lt in R1. apply Z.leb_le in R2. split.
           ++ intros [= <-]. repeat split; try assumption; lia.
           ++ intros (_ & _ & E & _). f_equal. lia.
        -- split; [discriminate|]. intros (_ & _ & E & Hn). exfalso.
           apply andb_false_iff in R as [R|R];
             [apply Z.ltb_ge in R | apply Z.leb_gt in R]; lia.
      * split; [discriminate|]. intros (_ & H & _). discriminate H.
    + split; [discriminate|]. intros (H & _).
      apply truthy_iff in H. congruence.
  - intros Hne. apply truthy_iff in Hne. cbn [JsString.truthy forallb].
    rewrite Hne. reflexivity.
Qed.

Lemma count_param_accepts_witness :
  count_param (lit "007") = Some 7%nat /\
  count_param (lit "07") = count_param (lit "7").
Proof.
  split.
  - apply (proj1 (count_param_accepts (lit "007") 7)).
    split; [discriminate|]. split; [reflexivity|]. split; [reflexivity|lia].
  - apply (proj2 (count_param_accepts (lit "7") 0)). discriminate.
Defined.

Lemma count_param_range (s : str) (n : nat) :
  count_param s = Some n -> (1 <= n <= 50)%nat.
Proof.
  unfold count_param, MAX_TOP_COUNT. change (Z.of_nat 50) with 50%Z.
  destruct (JsString.truthy s && forallb is_digit s); [|discriminate].
  destruct ((0 <? digits_value s)%Z && (digits_value s <=? 50)%Z) eqn:R;
    [|discriminate].
  apply andb_true_iff in R as [R1 R2].
  apply Z.ltb_lt in R1. apply Z.leb_le in R2. intros [= <-]. lia.
Qed.

Lemma sort_length (l : list EarthquakeData) :
  length (sort by_magnitude l) = length l.
Proof. apply Permutation_length, TopFacts.sort_perm. Qed.

(** X13. For an accepted [count] parameter, the top and the recent handlers
    answer with [min count total] records, hence never more than 50, and at
    least one when the snapshot is not empty; [requested] echoes the count
    and [total_available] is the size of the snapshot. *)
Theorem top_and_recent_sizes (s : str) (n : nat)
    (earthquakes : list EarthquakeData) :
  count_param s = Some n ->
  exists t c,
    top n (Return earthquakes) = Json t /\
    recent n (Return earthquakes) = Json c /\
    top_count t = Nat.min n (length earthquakes) /\
    length (top_data t) = top_count t /\
    recent_count c = Nat.min n (length earthquakes) /\
    length (recent_data c) = recent_count c /\
    (top_count t <= 50)%nat /\ (recent_count c <= 50)%nat /\
    top_requested t = n /\ recent_requested c = n /\
    total_available t = length earthquakes /\
    (earthquakes <> [] -> (1 <= top_count t)%nat /\ (1 <= recent_count c)%nat).
Proof.
  intros H. apply count_param_range in H.
  eexists. eexists. split; [reflexivity|]. split; [reflexivity|].
  cbn [top_count top_data recent_count recent_data top_requested
       recent_requested total_available].
  unfold topEarthquakes, recentEarthquakes.
  rewrite !length_firstn, sort_length.
  repeat split; try lia.
  - destruct earthquakes; [congruence|simpl; lia].
  - destruct earthquakes; [congruence|simpl; lia].
Qed.

Lemma top_and_recent_sizes_witness :
  exists t c,
    top 3 (Return Fixture.five) = Json t /\
    recent 3 (Return Fixture.five) = Json c /\
    top_count t = Nat.min 3 (length Fixture.five) /\
    length (top_data t) = top_count t /\
    recent_count c = Nat.min 3 (length Fixture.five) /\
    length (recent_data c) = recent_count c /\
    (top_count t <= 50)%nat /\ (recent_count c <= 50)%nat /\
    top_requested t = 3%nat /\ recent_requested c = 3%nat /\
    total_available t = length Fixture.five /\
    (Fixture.five <> [] -> (1 <= top_count t)%nat /\ (1 <= recent_count c)%nat).
Proof.
  apply (@top_and_recent_sizes (lit "3") 3 Fixture.five). reflexivity.
Defined.

(** X14. [GET /earthquakes/stats] fails only when the fetch itself throws
    (no snapshot and a failed attempt), and then with that failure's
    message.  On every sequence the cache can hand out the statistics are
    computed: the empty-array failure of the reduce never reaches a
    client. *)
Theorem stats_fail_only_with_fetch (now now' later : Z) (r : reply)
    (st : state) :
  snapshot_ok (earthquakeCache st) ->
  let answer :=
    fst (serve (fun fetched _ _ => stats_response fetched) now r now' later st) in
  (exists s first,
     answer = Json s /\ (1 <= total_count s)%nat /\
     most_recent s = Some first) \/
  (earthquakeCache st = None /\
   exists e, attempt r = Throw e /\
     answer = JsonError 500 (lit "Failed to calculate earthquake statistics")
                        (message_of e)).
Proof.
  intros Hok. unfold serve.
  pose proof (@fetch_returns false now now' r st) as R.
  pose proof (@throw_source false now now' r st) as T.
  destruct (fetchEarthquakes false now r now' st) as [fetched st'] eqn:F.
  cbn [fst snd] in *. destruct fetched as [records|e].
  - left. destruct (R records Hok Logic.eq_refl) as ([Hne _] & _).
    destruct records as [|x rest]; [congruence|].
    unfold stats_response. cbn [bind]. unfold stats. cbn [reduce1 bind].
    eexists. exists x. split; [reflexivity|].
    cbn [total_count most_recent nth_error length]. split; [lia|reflexivity].
  - right.
    destruct (T e Logic.eq_refl) as [Hc A].
    split; [exact Hc|]. exists e. split; [exact A|reflexivity].
Qed.

Lemma stats_fail_only_with_fetch_witness :
  let answer :=
    fst (serve (fun fetched _ _ => stats_response fetched) 2000
           (Rejected Fixture.network_down) 0 2001
           {| earthquakeCache := Some Fixture.good_entry; requests := 1%nat |}) in
  (exists s first,
     answer = Json s /\ (1 <= total_count s)%nat /\
     most_recent s = Some first) \/
  (Some Fixture.good_entry = None /\
   exists e, attempt (Rejected Fixture.network_down) = Throw e /\
     answer = JsonError 500 (lit "Failed to calculate earthquake statistics")
                        (message_of e)).
Proof.
  apply (@stats_fail_only_with_fetch 2000 0 2001 (Rejected Fixture.network_down)
           {| earthquakeCache := Some Fixture.good_entry; requests := 1%nat |}).
  exact good_entry_ok.
Defined.

End HandlerFacts.

(* ================================================================= *)
(** ** The filter handler *)

Module FilterFacts.
Import JsString JsNumber Dom Phivolcs Spec JsStringFacts JsNumberFacts.

(** The test [filter_query] applies to one record. *)
Lemma filter_query_filter (earthquakes : list EarthquakeData)
    (min_magnitude max_magnitude location0 : option str) :
  filter_query earthquakes min_magnitude max_magnitude location0 =
  filter
    (fun r =>
       match query_number min_magnitude with
       | Some lo =>
           geb (magnitudeNumeric r) lo &&
           match query_number max_magnitude with
           | Some hi => negb (JsNumber.truthy hi) || leb (magnitudeNumeric r) hi
           | None => true
           end
       | None => true
       end &&
       match location0 with
       | Some l =>
           if JsString.truthy l
           then includes (toLowerCase (location r)) (toLowerCase l)
           else true
       | None => true
       end)
    earthquakes.
Proof.
  assert (Hall : forall l : list EarthquakeData, filter (fun _ => true) l = l).
  { induction l as [|x l IH]; simpl; congruence. }
  assert (Hand : forall (f g : EarthquakeData -> bool) l,
             filter g (filter f l) = filter (fun r => f r && g r) l).
  { intros f g l. induction l as [|x l IH]; simpl; [reflexivity|].
    destruct (f x); simpl; [destruct (g x)|]; now rewrite IH. }
  unfold filter_query, filterByMagnitude, filterByLocation.
  destruct (query_number min_magnitude) as [lo|].
  - destruct location0 as [l|]; [destruct (JsString.truthy l)|].
    + now rewrite Hand.
    + apply filter_ext. intros r. now rewrite andb_true_r.
    + apply filter_ext. intros r. now rewrite andb_true_r.
  - destruct location0 as [l|]; [destruct (JsString.truthy l)|].
    + reflexivity.
    + symmetry. apply Hall.
    + symmetry. apply Hall.
Qed.

Lemma and_iff_both (A B C D : Prop) :
  (A <-> B) -> (C <-> D) -> (A /\ C <-> B /\ D).
Proof. tauto. Qed.

(** X15. [GET /earthquakes/filter] returns the snapshot filtered by one test
    per record, so order and multiplicity are kept.  A record passes when:
    if [min_magnitude] is given and not empty, its magnitude is at least the
    parsed minimum and, if [max_magnitude] is given, not empty, and parses to
    something other than 0 or [NaN], at most the parsed maximum; and if
    [location] is given and not empty, its location contains it regardless
    of case.  So [max_magnitude] without [min_magnitude] filters nothing. *)
Theorem filter_query_test (earthquakes : list EarthquakeData)
    (min_magnitude max_magnitude location0 : option str) :
  exists keep,
    filter_query earthquakes min_magnitude max_magnitude location0 =
      filter keep earthquakes /\
    forall r,
      keep r = true <->
      (forall lo, query_number min_magnitude = Some lo ->
         geb (magnitudeNumeric r) lo = true /\
         forall hi, query_number max_magnitude = Some hi ->
           JsNumber.truthy hi = true -> leb (magnitudeNumeric r) hi = true) /\
      (forall l, location0 = Some l -> l <> [] -> contains_ci (location r) l).
Proof.
  eexists. split; [apply filter_query_filter|]. intros r.
  rewrite andb_true_iff. apply and_iff_both.
  - destruct (query_number min_magnitude) as [lo|].
    + rewrite andb_true_iff. split.
      * intros [Hlo Hhi] lo' [= <-]. split; [exact Hlo|].
        intros hi Ehi Thi. rewrite Ehi, Thi in Hhi. exact Hhi.
      * intros H. destruct (H lo Logic.eq_refl) as [Hlo Hhi].
        split; [exact Hlo|].
        destruct (query_number max_magnitude) as [hi|]; [|reflexivity].
        destruct (JsNumber.truthy hi) eqn:T; [|reflexivity].
        now apply Hhi.
    + split; [discriminate|reflexivity].
  - destruct location0 as [l|].
    + destruct l as [|c l]; cbn [JsString.truthy].
      * split; [intros _ l' [= <-] H; now elim H | reflexivity].
      * rewrite QueryFacts.includes_lower. split.
        -- now intros H l' [= <-] _.
        -- intros H. apply H; [reflexivity|discriminate].
    + split; [discriminate|reflexivity].
Qed.

Lemma filter_query_test_witness :
  In (Fixture.quake 4.5 "Batangas")
     (filter_query Fixture.five (Some (lit "4")) (Some (lit "5"))
        (Some (lit "BAT"))).
Proof.
  destruct (filter_query_test Fixture.five (Some (lit "4")) (Some (lit "5"))
              (Some (lit "BAT"))) as (keep & E & K).
  rewrite E. apply filter_In. split; [left; reflexivity|].
  apply K. split.
  - intros lo [= <-]. split; [reflexivity|]. now intros hi [= <-] _.
  - intros l [= <-] _. exists [], (lit "Bat"), (lit "angas").
    split; reflexivity.
Defined.

(** X16. An unparsable [min_magnitude] (one for which [parseFloat] gives
    [NaN], such as ["abc"]) is not refused: the handler answers with no
    record at all, whatever the other parameters. *)
Theorem filter_query_unparsable_min (earthquakes : list EarthquakeData)
    (v : str) (max_magnitude location0 : option str) :
  v <> [] -> parseFloat v = NaN ->
  filter_query earthquakes (Some v) max_magnitude location0 = [].
Proof.
  intros Hv Hnan. rewrite filter_query_filter.
  unfold query_number. destruct v as [|c v]; [congruence|].
  cbn [JsString.truthy]. rewrite Hnan.
  induction earthquakes as [|r rs IH]; [reflexivity|].
  cbn [filter]. rewrite IH.
  replace (geb (magnitudeNumeric r) NaN) with false
    by (unfold geb; now destruct (magnitudeNumeric r)).
  reflexivity.
Qed.

Lemma filter_query_unparsable_min_witness :
  filter_query Fixture.five (Some (lit "abc")) None None = [].
Proof.
  apply (@filter_query_unparsable_min Fixture.five (lit "abc") None None).
  - discriminate.
  - reflexivity.
Defined.

Lemma filter_comm {A} (f g : A -> bool) (l : list A) :
  filter f (filter g l) = filter g (filter f l).
Proof.
  induction l as [|x l IH]; simpl; [reflexivity|].
  destruct (f x) eqn:F, (g x) eqn:G; simpl; rewrite ?F, ?G, IH; reflexivity.
Qed.

Lemma filter_idem {A} (f : A -> bool) (l : list A) :
  filter f (filter f l) = filter f l.
Proof.
  induction l as [|x l IH]; simpl; [reflexivity|].
  destruct (f x) eqn:F; simpl; rewrite ?F, IH; reflexivity.
Qed.

(** X17. The two filters commute, and each is idempotent: filtering by
    magnitude then by location gives the same sequence as the other way
    round, and applying a filter twice adds nothing. *)
Theorem filters_commute (earthquakes : list EarthquakeData)
    (minMag : number) (maxMag : option number) (search : str) :
  filterByLocation (filterByMagnitude earthquakes minMag maxMag) search =
  filterByMagnitude (filterByLocation earthquakes search) minMag maxMag /\
  filterByLocation (filterByLocation earthquakes search) search =
  filterByLocation earthquakes search /\
  filterByMagnitude (filterByMagnitude earthquakes minMag maxMag) minMag maxMag =
  filterByMagnitude earthquakes minMag maxMag.
Proof.
  unfold filterByLocation, filterByMagnitude.
  split; [apply filter_comm|]. split; apply filter_idem.
Qed.

End FilterFacts.

(* ================================================================= *)
(** ** Top N, most recent and strongest together *)

Module RankingFacts.
Import JsString JsNumber Dom Phivolcs Spec JsNumberFacts TopFacts.

Lemma insert_front (x : EarthquakeData) (l : list EarthquakeData) :
  HdRel ge_mag x l -> insert by_magnitude x l = x :: l.
Proof.
  intros H. destruct l as [|y l]; [reflexivity|].
  rewrite insert_cons.
  destruct (gtb (by_magnitude x y) (Finite 0)) eqn:E; [|reflexivity].
  apply by_magnitude_after, ltb_not_leb in E.
  inversion H as [|? ? G]; subst. unfold ge_mag, geb in G. congruence.
Qed.

Lemma sort_descending_id (l : list EarthquakeData) :
  descending l -> sort by_magnitude l = l.
Proof.
  unfold descending. intros H. apply StronglySorted_Sorted in H.
  induction H as [|x l Hs IH Hd]; [reflexivity|].
  rewrite sort_cons, IH. now apply insert_front.
Qed.

Lemma top_descending (earthquakes : list EarthquakeData) (n : nat) :
  Forall (fun r => magnitudeNumeric r <> NaN) earthquakes ->
  descending (topEarthquakes earthquakes n).
Proof.
  intros H. unfold topEarthquakes.
  apply descending_prefix with (l2 := skipn n (sort by_magnitude earthquakes)).
  rewrite firstn_skipn. now apply sort_descending.
Qed.

(** X18. On a snapshot that is already in descending order of magnitude the
    top handler and the recent handler return the same records; and taking
    the top [n] of a top-[n] result changes nothing. *)
Theorem top_of_descending_is_recent (earthquakes : list EarthquakeData)
    (n : nat) :
  (descending earthquakes ->
   topEarthquakes earthquakes n = recentEarthquakes earthquakes n) /\
  (Forall (fun r => magnitudeNumeric r <> NaN) earthquakes ->
   topEarthquakes (topEarthquakes earthquakes n) n =
   topEarthquakes earthquakes n).
Proof.
  split.
  - intros H. unfold topEarthquakes, recentEarthquakes.
    now rewrite sort_descending_id.
  - intros H. pose proof (top_descending n H) as D.
    unfold topEarthquakes at 1. rewrite (sort_descending_id D).
    unfold topEarthquakes. rewrite firstn_firstn. now rewrite Nat.min_id.
Qed.

Lemma top_of_descending_is_recent_witness :
  topEarthquakes (topEarthquakes Fixture.five 3) 3 = topEarthquakes Fixture.five 3 /\
  topEarthquakes (topEarthquakes Fixture.five 5) 2 =
  recentEarthquakes (topEarthquakes Fixture.five 5) 2.
Proof.
  split.
  - apply (proj2 (top_of_descending_is_recent Fixture.five 3)).
    repeat constructor; discriminate.
  - apply (proj1 (top_of_descending_is_recent (topEarthquakes Fixture.five 5) 2)).
    apply top_descending. repeat constructor; discriminate.
Defined.

(** [stronger] keeps one of its arguments, and is associative on numbers. *)
Lemma stronger_cases (x y : EarthquakeData) :
  stronger x y = x \/ stronger x y = y.
Proof. unfold stronger. destruct (gtb _ _); auto. Qed.

Lemma stronger_assoc (x y z : EarthquakeData) :
  magnitudeNumeric x <> NaN -> magnitudeNumeric y <> NaN ->
  magnitudeNumeric z <> NaN ->
  stronger (stronger x y) z = stronger x (stronger y z).
Proof.
  intros Hx Hy Hz. unfold stronger, gtb.
  destruct (ltb (magnitudeNumeric x) (magnitudeNumeric y)) eqn:Exy;
  destruct (ltb (magnitudeNumeric y) (magnitudeNumeric z)) eqn:Eyz;
  rewrite ?Exy, ?Eyz;
  destruct (ltb (magnitudeNumeric x) (magnitudeNumeric z)) eqn:Exz;
  rewrite ?Exy, ?Eyz; try reflexivity; exfalso.
  - pose proof (StatsFacts.ltb_trans _ _ _ Exy Eyz). congruence.
  - apply ltb_false_leb in Eyz; [|assumption..].
    pose proof (ltb_leb_trans _ _ _ Exz Eyz). congruence.
Qed.

Lemma fold_stronger_in (l : list EarthquakeData) (x : EarthquakeData) :
  In (fold_left stronger l x) (x :: l).
Proof.
  revert x. induction l as [|y l IH]; intros x; [now left|].
  cbn [fold_left]. destruct (IH (stronger x y)) as [H|H].
  - rewrite <- H. destruct (stronger_cases x y) as [-> | ->];
      [now left | right; now left].
  - right. now right.
Qed.

Lemma fold_stronger_cons (l : list EarthquakeData) (x y : EarthquakeData) :
  Forall (fun r => magnitudeNumeric r <> NaN) (x :: y :: l) ->
  fold_left stronger (y :: l) x = stronger x (fold_left stronger l y).
Proof.
  revert x y. induction l as [|z l IH]; intros x y H; [reflexivity|].
  inversion H as [|? ? Hx H1]; subst. inversion H1 as [|? ? Hy H2]; subst.
  inversion H2 as [|? ? Hz H3]; subst.
  change (fold_left stronger (y :: z :: l) x)
    with (fold_left stronger (z :: l) (stronger x y)).
  assert (Hxy : magnitudeNumeric (stronger x y) <> NaN)
    by (destruct (stronger_cases x y) as [-> | ->]; assumption).
  rewrite (IH (stronger x y) z) by (constructor; assumption).
  rewrite (IH y z) by assumption.
  apply stronger_assoc; try assumption.
  rewrite Forall_forall in H2. apply H2, fold_stronger_in.
Qed.

Lemma sort_head (l : list EarthquakeData) (x : EarthquakeData) :
  Forall (fun r => magnitudeNumeric r <> NaN) (x :: l) ->
  exists rest, sort by_magnitude (x :: l) = fold_left stronger l x :: rest.
Proof.
  revert x. induction l as [|y l IH]; intros x H.
  - now exists [].
  - inversion H as [|? ? Hx H1]; subst.
    destruct (IH y H1) as [rest E].
    rewrite sort_cons, E, insert_cons, fold_stronger_cons by exact H.
    assert (Hb : magnitudeNumeric (fold_left stronger l y) <> NaN).
    { rewrite Forall_forall in H1. apply H1, fold_stronger_in. }
    set (h := fold_left stronger l y) in *. unfold stronger.
    replace (gtb (by_magnitude x h) (Finite 0))
      with (gtb (magnitudeNumeric h) (magnitudeNumeric x))
      by (unfold by_magnitude; now rewrite sub_positive).
    destruct (gtb _ _); eexists; reflexivity.
Qed.

(** X19. The first record of the top handler's answer is the [strongest]
    record of the statistics: for a non-empty snapshot of records whose
    magnitude is a number, and any count of at least 1, both handlers name
    the same record, the first one of greatest magnitude. *)
Theorem top_starts_with_strongest (earthquakes : list EarthquakeData)
    (n : nat) :
  earthquakes <> [] -> (1 <= n)%nat ->
  Forall (fun r => magnitudeNumeric r <> NaN) earthquakes ->
  exists s,
    stats earthquakes = Return s /\
    hd_error (topEarthquakes earthquakes n) = Some (strongest s).
Proof.
  intros Hne Hn Hnum. destruct earthquakes as [|x l]; [congruence|].
  eexists. split; [reflexivity|]. cbn [strongest].
  destruct (sort_head Hnum) as [rest E].
  unfold topEarthquakes. rewrite E.
  destruct n as [|n]; [lia|reflexivity].
Qed.

Lemma top_starts_with_strongest_witness :
  exists s,
    stats Fixture.five = Return s /\
    hd_error (topEarthquakes Fixture.five 1) = Some (strongest s).
Proof.
  apply (@top_starts_with_strongest Fixture.five 1).
  - discriminate.
  - lia.
  - repeat constructor; discriminate.
Defined.

Lemma size_succ (n : nat) :
  inject_Z (Z.of_nat (S n)) == inject_Z (Z.of_nat n) + 1.
Proof. rewrite Nat2Z.inj_succ. unfold Z.succ. now rewrite inject_Z_plus. Qed.

Lemma total_bounds (qs : list Q) (lo hi : Q) :
  (forall q, In q qs -> lo <= q /\ q <= hi) ->
  inject_Z (Z.of_nat (length qs)) * lo <= total qs /\
  total qs <= inject_Z (Z.of_nat (length qs)) * hi.
Proof.
  induction qs as [|q qs IH]; intros H.
  - change (0 * lo <= 0 /\ 0 <= 0 * hi). split; lra.
  - destruct (H q (or_introl Logic.eq_refl)) as [Hlo Hhi].
    destruct IH as [IHlo IHhi]; [intros x Hx; apply H; now right|].
    cbn [length total fold_right]. fold (total qs). rewrite size_succ.
    set (n := inject_Z (Z.of_nat (length qs))) in *.
    split.
    + setoid_replace ((n + 1) * lo) with (n * lo + lo) by ring. lra.
    + setoid_replace ((n + 1) * hi) with (n * hi + hi) by ring. lra.
Qed.

Lemma size_positive (qs : list Q) :
  qs <> [] -> 0 < inject_Z (Z.of_nat (length qs)).
Proof.
  intros H. destruct qs as [|q qs]; [congruence|].
  unfold Qlt. simpl. lia.
Qed.

Lemma finite_leb (a b : Q) : leb (Finite a) (Finite b) = true <-> a <= b.
Proof. simpl. apply Qle_bool_iff. Qed.

(** X20. The fields of the statistics agree with each other.  For a
    non-empty snapshot of records whose magnitude is a number: the magnitude
    of [strongest] is the reported maximum and the minimum is at most the
    maximum; the average lies between the two when averaging the magnitudes
    involves no rounding. *)
Theorem stats_fields_agree (earthquakes : list EarthquakeData) :
  earthquakes <> [] ->
  Forall (fun r => magnitudeNumeric r <> NaN) earthquakes ->
  exists s,
    stats earthquakes = Return s /\
    same_value (max (magnitude_range s)) (magnitudeNumeric (strongest s)) = true /\
    leb (min (magnitude_range s)) (max (magnitude_range s)) = true /\
    (forall qs, map magnitudeNumeric earthquakes = map Finite qs ->
       no_rounding qs ->
       leb (min (magnitude_range s)) (average (magnitude_range s)) = true /\
       leb (average (magnitude_range s)) (max (magnitude_range s)) = true).
Proof.
  intros Hne Hnum.
  destruct (StatsFacts.reduce1_stronger Hne Hnum) as (s & Es & b & a & El & Hb & Ha).
  set (mags := map magnitudeNumeric earthquakes).
  assert (Hm : Forall (fun x => x <> NaN) mags).
  { apply Forall_forall. intros x Hx. apply in_map_iff in Hx as (r & <- & Hr).
    rewrite Forall_forall in Hnum. now apply Hnum. }
  assert (Hmne : mags <> []).
  { intros E. apply map_eq_nil in E. congruence. }
  destruct (Math_max_spec Hmne Hm) as [Mi Mu].
  destruct (Math_min_spec Hmne Hm) as [mi mu].
  eexists. split; [unfold stats; rewrite Es; reflexivity|].
  cbn [magnitude_range strongest max min average range_of]. fold mags.
  split; [|split].
  - unfold same_value. apply andb_true_iff. split.
    + apply Mu. apply in_map. rewrite El. apply in_or_app. right. now left.
    + apply in_map_iff in Mi as (r & <- & Hr). rewrite El in Hr.
      apply in_app_or in Hr as [Hr|[<-|Hr]].
      * now apply ltb_leb, Hb.
      * apply leb_refl. rewrite Forall_forall in Hnum. apply Hnum.
        rewrite El. apply in_or_app. right. now left.
      * now apply Ha.
  - now apply mu.
  - intros qs Eq Hexact. unfold mags in *. rewrite Eq in *.
    assert (Hq : qs <> []) by (intros ->; now apply Hmne).
    apply in_map_iff in Mi as (M & EM & HM).
    apply in_map_iff in mi as (m & Em & Hmin).
    rewrite <- EM in *. rewrite <- Em in *.
    pose proof (average_exact Hq Hexact) as Hav.
    destruct (div _ _) as [| |av|]; simpl in Hav; try tauto.
    pose proof (size_positive Hq) as Hpos.
    destruct (@total_bounds qs m M) as [Tlo Thi].
    { intros q Hin. split; apply finite_leb;
        [apply mu | apply Mu]; now apply in_map. }
    rewrite !finite_leb, Hav. unfold mean. split.
    + apply Qle_shift_div_l; [exact Hpos|]. rewrite Qmult_comm. exact Tlo.
    + apply Qle_shift_div_r; [exact Hpos|]. rewrite Qmult_comm. exact Thi.
Qed.

Lemma stats_fields_agree_witness :
  exists s,
    stats Fixture.halves = Return s /\
    same_value (max (magnitude_range s)) (magnitudeNumeric (strongest s)) = true /\
    leb (min (magnitude_range s)) (max (magnitude_range s)) = true /\
    leb (min (magnitude_range s)) (average (magnitude_range s)) = true /\
    leb (average (magnitude_range s)) (max (magnitude_range s)) = true.
Proof.
  destruct (@stats_fields_agree Fixture.halves) as (s & Es & H1 & H2 & H3).
  - discriminate.
  - repeat constructor; vm_compute; discriminate.
  - exists s. split; [exact Es|]. split; [exact H1|]. split; [exact H2|].
    apply (H3 [9 # 2; 5 # 2; 2 # 1]).
    + vm_compute. reflexivity.
    + split; [|vm_compute; reflexivity].
      intros [|[|[|[|k]]]] Hk; vm_compute; reflexivity.
Defined.

(** Rounding can carry the average out of the range: three records of
    magnitude 3.3 average to 3.2999999999999994, below the minimum, and
    three of 2.7 to 2.7000000000000006, above the maximum. *)
Lemma average_outside_range :
  (exists s, stats (Fixture.thrice "3.3") = Return s /\
             ltb (average (magnitude_range s)) (min (magnitude_range s)) = true) /\
  (exists s, stats (Fixture.thrice "2.7") = Return s /\
             ltb (max (magnitude_range s)) (average (magnitude_range s)) = true).
Proof.
  split; eexists; (split; [reflexivity|]); vm_compute; reflexivity.
Qed.

End RankingFacts.
